(** * gotunnel: health aggregation, status endpoints, graceful shutdown, logging

    A shallow embedding of
      - internal/health   (HealthService: RegisterChecker, SetReady,
                           SetShuttingDown, Check),
      - cmd/server/main.go (the /healthz and /readyz handlers and the
                           shutdown sequence of main),
      - internal/logging  (Logger.log, Logger.WithFields),
    together with the properties the specification states about them.

    Conventions.
      - A Go [map[string]interface{}] is a [gmap string value]; the dynamic
        values that occur are strings, booleans and nested maps.
      - A Go [error] is represented by its [Error()] text; [nil] is [None].
      - A call into code behind an interface (a health checker, a server's
        Shutdown) either returns or blocks forever; the latter is the
        constructor [NeverReturns].
      - [time.Now()] is an explicit argument. *)

From stdpp Require Import gmap strings list fin_maps relations.
From Stdlib Require Import ZArith.

Set Warnings "-register-all,-clear-no-such-hyp".
Open Scope Z_scope.

(** ** context.Context *)

(** The dynamic values a context can carry under a key. *)
Inductive any : Type :=
  | AnyString (s : string)
  | AnyInt (z : Z).

(** What the code reads from a context: its deadline (absent for
    [context.Background()]) and [ctx.Value(key)]. *)
Record Context : Type := mkContext {
  Deadline : option Z;
  Value : string → option any
}.

Definition Background : Context :=
  {| Deadline := None; Value := λ _, None |}.

(** [context.WithTimeout(parent, d)] created at time [now]. *)
Definition WithTimeout (parent : Context) (now d : Z) : Context :=
  {| Deadline := Some (match Deadline parent with
                       | Some p => Z.min p (now + d)
                       | None => now + d
                       end);
     Value := Value parent |}.

(** Result of a call that may block forever; [err = None] is a nil error. *)
Inductive outcome : Type :=
  | Returns (err : option string)
  | NeverReturns.

(** ** interface{} values of the report *)

Inductive value : Type :=
  | VString (s : string)
  | VBool (b : bool)
  | VMap (m : gmap string value).

(** Go's [v == "lit"] for [v] an interface value read from a map: true
    exactly for a string of the same contents; a missing key reads as nil. *)
Definition eq_string (v : option value) (lit : string) : bool :=
  match v with
  | Some (VString s) => bool_decide (s = lit)
  | _ => false
  end.

(** * internal/health *)
Module Health.

(** [type HealthChecker interface { Check(ctx) error; Name() string }] *)
Record HealthChecker : Type := mkChecker {
  Name : string;
  CheckerCheck : Context → outcome
}.

(** [type HealthService struct]; the RWMutex [mu] carries no data and is
    modelled with the interleaving semantics of [Module Locking]. *)
Record HealthService : Type := mkHealthService {
  checkers : gmap string HealthChecker;
  ready : bool;
  shuttingDown : bool
}.

Definition NewHealthService : HealthService :=
  {| checkers := ∅; ready := false; shuttingDown := false |}.

Definition RegisterChecker (h : HealthService) (checker : HealthChecker)
  : HealthService :=
  {| checkers := <[Name checker := checker]> (checkers h);
     ready := ready h;
     shuttingDown := shuttingDown h |}.

Definition SetReady (h : HealthService) (r : bool) : HealthService :=
  {| checkers := checkers h; ready := r; shuttingDown := shuttingDown h |}.

Definition SetShuttingDown (h : HealthService) (s : bool) : HealthService :=
  {| checkers := checkers h; ready := ready h; shuttingDown := s |}.

(** Modelled from the spec: [IsReady] and [IsShuttingDown] are called by
    cmd/server/main.go but their bodies are not among the sources; the
    specification says they take the read side of the lock and return the
    current flag value. *)
Definition IsReady (h : HealthService) : bool := ready h.
Definition IsShuttingDown (h : HealthService) : bool := shuttingDown h.

(** The entry stored in [checkResults[name]] for a returned error. *)
Definition check_entry (err : option string) : value :=
  match err with
  | Some e => VMap (<["status" := VString "unhealthy"]>
                    (<["error" := VString e]> ∅))
  | None => VMap (<["status" := VString "healthy"]> ∅)
  end.

(** Loop state of [Check]: the two maps under construction and the
    checkers invoked so far, each with the key it was found under (most
    recent first). *)
Record loop_state : Type := mkLoop {
  result : gmap string value;
  checkResults : gmap string value;
  invoked : list (string * HealthChecker)
}.

(** One iteration of [for name, checker := range h.checkers]. *)
Definition loop_body (ctx : Context) (name : string) (checker : HealthChecker)
    (st : loop_state) : option loop_state :=
  match CheckerCheck checker ctx with
  | NeverReturns => None
  | Returns (Some e) =>
      Some {| result := <["status" := VString "unhealthy"]> (result st);
              checkResults := <[name := check_entry (Some e)]> (checkResults st);
              invoked := (name, checker) :: invoked st |}
  | Returns None =>
      Some {| result := result st;
              checkResults := <[name := check_entry None]> (checkResults st);
              invoked := (name, checker) :: invoked st |}
  end.

(** The range loop over the entries in the order the runtime visits them. *)
Fixpoint range_checkers (ctx : Context) (order : list (string * HealthChecker))
    (st : loop_state) : option loop_state :=
  match order with
  | [] => Some st
  | (name, checker) :: rest =>
      match loop_body ctx name checker st with
      | Some st' => range_checkers ctx rest st'
      | None => None
      end
  end.

(** The four keys written before the loop. *)
Definition initial_result (now : string) (h : HealthService)
  : gmap string value :=
  <["shutting_down" := VBool (shuttingDown h)]>
    (<["ready" := VBool (ready h)]>
      (<["timestamp" := VString now]>
        (<["status" := VString "healthy"]> ∅))).

(** [Check] for a given visiting order of the map; [None] when the call
    never returns. *)
Definition Check_in_order (now : string) (h : HealthService) (ctx : Context)
    (order : list (string * HealthChecker)) : option loop_state :=
  match range_checkers ctx order
          {| result := initial_result now h; checkResults := ∅; invoked := [] |}
  with
  | Some st =>
      Some {| result := <["checks" := VMap (checkResults st)]> (result st);
              checkResults := checkResults st;
              invoked := invoked st |}
  | None => None
  end.

(** Go leaves the iteration order of a map unspecified; [Check_run] fixes
    one order, and [Check_in_order_perm] shows the report is the same for
    every other. *)
Definition Check_run (now : string) (h : HealthService) (ctx : Context)
  : option loop_state :=
  Check_in_order now h ctx (map_to_list (checkers h)).

(** [func (h *HealthService) Check(ctx) map[string]interface{}] *)
Definition Check (now : string) (h : HealthService) (ctx : Context)
  : option (gmap string value) :=
  result <$> Check_run now h ctx.

(** The two checkers shipped with the package (both stubs). *)
Definition CertificateChecker (certFile : string) : HealthChecker :=
  {| Name := "certificate"; CheckerCheck := λ _, Returns None |}.

Definition TunnelConnectionChecker (minConnections : Z) : HealthChecker :=
  {| Name := "tunnel_connections"; CheckerCheck := λ _, Returns None |}.

End Health.

(** * internal/logging *)
Module Logging.

(** [type Level int] with [DEBUG .. FATAL] numbered by [iota]. *)
Definition Level : Type := Z.
Definition DEBUG : Level := 0.
Definition INFO : Level := 1.
Definition WARN : Level := 2.
Definition ERROR : Level := 3.
Definition FATAL : Level := 4.

(** [func (l Level) String() string] *)
Definition Level_String (l : Level) : string :=
  if l =? DEBUG then "DEBUG"
  else if l =? INFO then "INFO"
  else if l =? WARN then "WARN"
  else if l =? ERROR then "ERROR"
  else if l =? FATAL then "FATAL"
  else "UNKNOWN".

(** [type LogEntry struct]; [Fields] is a map that may be nil. The field
    holding the level's name is [Level] in the source. *)
Record LogEntry : Type := mkLogEntry {
  Timestamp : string;
  LevelName : string;
  Service : string;
  Environment : string;
  Message : string;
  TraceID : string;
  SpanID : string;
  Fields : option (gmap string value)
}.

Record JSONFormatter : Type := mkJSONFormatter {
  TimestampFormat : string;
  PrettyPrint : bool
}.

(** Heap addresses of loggers and formatters, and open files. *)
Definition loc : Type := nat.

(** [type Logger struct]. The [formatter] is an interface value holding a
    pointer (the package constructs [&JSONFormatter{}] only), [output] a
    [*os.File]. Each logger owns its mutex [mu], which holds no data and
    only orders the two writes of one [log] call. *)
Record Logger : Type := mkLogger {
  level : Level;
  serviceName : string;
  environment : string;
  formatter : loc;
  output : loc
}.

(** The memory a logger call works on: the loggers and formatters that
    pointers refer to, and for each file the chunks written to it, oldest
    first. *)
Record World : Type := mkWorld {
  loggers : gmap loc Logger;
  formatters : gmap loc JSONFormatter;
  files : gmap loc (list string)
}.

(** [f.Write(data)] *)
Definition Write (w : World) (f : loc) (data : string) : World :=
  {| loggers := loggers w;
     formatters := formatters w;
     files := <[f := default [] (files w !! f) ++ [data]]> (files w) |}.

(** How a call ends. *)
Inductive result : Type :=
  | Done (w : World)
  | Exited (w : World) (code : Z)
  | Panicked.

Definition newline : string := String (Ascii.ascii_of_nat 10) EmptyString.
Definition RFC3339 : string := "2006-01-02T15:04:05Z07:00".
Definition Stdout : loc := 1%nat.

Section WithRuntime.

(** The collaborators from the Go standard library:
    [json.Marshal], [json.MarshalIndent] ([None] is a non-nil error) and
    [time.Time.Format]. *)
Variable Marshal : LogEntry → option string.
Variable MarshalIndent : LogEntry → string → string → option string.
Variable FormatTime : Z → string → string.

(** [func (f *JSONFormatter) Format(entry LogEntry) ([]byte, error)]:
    the formatter after the call, and the bytes or an error. *)
Definition Format (now : Z) (f : JSONFormatter) (entry : LogEntry)
  : JSONFormatter * option string :=
  let f' := if bool_decide (TimestampFormat f = "")
            then {| TimestampFormat := RFC3339; PrettyPrint := PrettyPrint f |}
            else f in
  let entry' := {| Timestamp := FormatTime now (TimestampFormat f');
                   LevelName := LevelName entry;
                   Service := Service entry;
                   Environment := Environment entry;
                   Message := Message entry;
                   TraceID := TraceID entry;
                   SpanID := SpanID entry;
                   Fields := Fields entry |} in
  (f', if PrettyPrint f' then MarshalIndent entry' "" "  " else Marshal entry').

(** [ctx.Value(key)] followed, when the value is not nil, by the assertion
    [.(string)]: [dflt] when the key is absent, [None] when the assertion
    panics. *)
Definition string_of_ctx (ctx : Context) (key : string) (dflt : string)
  : option string :=
  match Value ctx key with
  | None => Some dflt
  | Some (AnyString s) => Some s
  | Some _ => None
  end.

(** [func NewLogger(serviceName, environment string, level Level) *Logger]:
    allocates the formatter and the logger. *)
Definition NewLogger (w : World) (service env : string) (lvl : Level)
  : World * loc :=
  let fa := fresh (dom (formatters w)) in
  let la := fresh (dom (loggers w)) in
  ({| loggers := <[la := {| level := lvl; serviceName := service;
                            environment := env; formatter := fa;
                            output := Stdout |}]> (loggers w);
      formatters := <[fa := {| TimestampFormat := ""; PrettyPrint := false |}]>
                      (formatters w);
      files := files w |}, la).

(** [func (l *Logger) log(ctx, level, msg, fields)] *)
Definition log (now : Z) (w : World) (l : loc) (ctx : Context) (lvl : Level)
    (msg : string) (fields : option (gmap string value)) : result :=
  match loggers w !! l with
  | None => Panicked
  | Some L =>
      if lvl <? level L then Done w
      else
        match string_of_ctx ctx "trace_id" "" with
        | None => Panicked
        | Some traceID =>
            match string_of_ctx ctx "span_id" "" with
            | None => Panicked
            | Some spanID =>
                let entry := {| Timestamp := "";
                                LevelName := Level_String lvl;
                                Service := serviceName L;
                                Environment := environment L;
                                Message := msg;
                                TraceID := traceID;
                                SpanID := spanID;
                                Fields := fields |} in
                match formatters w !! formatter L with
                | None => Panicked
                | Some f =>
                    let '(f', data) := Format now f entry in
                    let w1 := {| loggers := loggers w;
                                 formatters := <[formatter L := f']> (formatters w);
                                 files := files w |} in
                    match data with
                    | None => Done w1
                    | Some bytes =>
                        Done (Write (Write w1 (output L) bytes) (output L)
                                    newline)
                    end
                end
            end
        end
  end.

Definition Debug now w l ctx msg fields := log now w l ctx DEBUG msg fields.
Definition Info now w l ctx msg fields := log now w l ctx INFO msg fields.
Definition Warn now w l ctx msg fields := log now w l ctx WARN msg fields.
Definition Error now w l ctx msg fields := log now w l ctx ERROR msg fields.

(** [Fatal]: [log], then [os.Exit(1)]. *)
Definition Fatal now w l ctx msg fields : result :=
  match log now w l ctx FATAL msg fields with
  | Done w' => Exited w' 1
  | r => r
  end.

(** [func (l *Logger) WithFields(fields) *Logger]: a freshly allocated
    logger; [None] for a receiver that points nowhere. *)
Definition WithFields (w : World) (l : loc) (fields : option (gmap string value))
  : option (World * loc) :=
  match loggers w !! l with
  | None => None
  | Some L =>
      let l' := fresh (dom (loggers w)) in
      Some ({| loggers := <[l' := {| level := level L;
                                      serviceName := serviceName L;
                                      environment := environment L;
                                      formatter := formatter L;
                                      output := output L |}]> (loggers w);
               formatters := formatters w;
               files := files w |}, l')
  end.

End WithRuntime.

End Logging.

(** * cmd/server/main.go *)
Module Server.
Import Health.

Definition StatusOK : Z := 200.
Definition StatusServiceUnavailable : Z := 503.

(** What a handler leaves in the [http.ResponseWriter]. *)
Record Response : Type := mkResponse {
  header : list (string * string);
  statusCode : Z;
  body : string
}.

(** A handled request: the response, and the checkers the handler caused
    to be invoked. *)
Record handled : Type := mkHandled {
  response : Response;
  probed : list (string * HealthChecker)
}.

(** A handler makes several calls on the shared [*HealthService], each
    under its own lock acquisition; [view k] is the registry as the
    handler's [k]-th call finds it. A registry nobody writes to meanwhile
    is the constant view. *)
Definition view : Type := nat → HealthService.

(** The handler registered for ["/healthz"]. [Encode m] is what
    [json.NewEncoder(w).Encode(m)] writes; [None] when [Check] never
    returns. *)
Definition healthz (Encode : gmap string value → string) (v : view)
    (now : string) (ctx : Context) : option handled :=
  match Check_run now (v 0%nat) ctx with
  | None => None
  | Some run =>
      let status :=
        if eq_string (result run !! "status") "unhealthy"
           || IsShuttingDown (v 1%nat)
        then StatusServiceUnavailable else StatusOK in
      Some {| response := {| header := [("Content-Type", "application/json")];
                             statusCode := status;
                             body := Encode (result run) |};
              probed := invoked run |}
  end.

(** The handler registered for ["/readyz"]. *)
Definition readyz (v : view) : handled :=
  if IsShuttingDown (v 0%nat) then
    {| response := {| header := []; statusCode := StatusServiceUnavailable;
                      body := "shutting down" |};
       probed := [] |}
  else if negb (IsReady (v 1%nat)) then
    {| response := {| header := []; statusCode := StatusServiceUnavailable;
                      body := "not ready" |};
       probed := [] |}
  else
    {| response := {| header := []; statusCode := StatusOK; body := "ready" |};
       probed := [] |}.

(** [func parseLogLevel(level string) logging.Level] *)
Definition parseLogLevel (lvl : string) : Logging.Level :=
  if bool_decide (lvl = "debug") then Logging.DEBUG
  else if bool_decide (lvl = "info") then Logging.INFO
  else if bool_decide (lvl = "warn") then Logging.WARN
  else if bool_decide (lvl = "error") then Logging.ERROR
  else Logging.INFO.

(** ** The shutdown sequence of [main] (from [<-sigChan] to its return) *)

(** The two long-running components. *)
Inductive component : Type := HTTPServer | TunnelServer.

(** What [main] does that others can see, in the order it happens. *)
Inductive event : Type :=
  | EvLog (lvl : Logging.Level) (msg : string) (err : option string)
  | EvSetShuttingDown (b : bool)
  | EvSetReady (b : bool)
  | EvShutdownCall (c : component) (ctx : Context) (at_time : Z)
  | EvShutdownReturn (c : component) (at_time : Z) (err : option string)
  | EvWaitReturn (at_time : Z).

(** Program points of [main] after the signal arrived. The [...Wait]
    points are inside a blocking call. *)
Inductive pc : Type :=
  | SignalReceived
  | MakeContext
  | MarkShuttingDown
  | MarkNotReady
  | HTTPShutdown
  | HTTPShutdownWait
  | TunnelShutdown
  | TunnelShutdownWait
  | WaitGroup
  | Completed
  | Returned.

Record state : Type := mkState {
  at_pc : pc;
  health : HealthService;
  clock : Z;
  shutdownCtx : option Context;
  trace : list event
}.

Definition Second : Z := 1000000000.

(** The state in which [<-sigChan] returns at time [t0]. *)
Definition init (t0 : Z) (h : HealthService) : state :=
  {| at_pc := SignalReceived; health := h; clock := t0;
     shutdownCtx := None; trace := [] |}.

Definition goto (s : state) (p : pc) : state :=
  let '(mkState _ h t ctx tr) := s in mkState p h t ctx tr.

Definition emit (s : state) (e : event) : state :=
  let '(mkState p h t ctx tr) := s in mkState p h t ctx (tr ++ [e]).

Definition set_health (s : state) (h : HealthService) : state :=
  let '(mkState p _ t ctx tr) := s in mkState p h t ctx tr.

Definition set_clock (s : state) (t : Z) : state :=
  let '(mkState p h _ ctx tr) := s in mkState p h t ctx tr.

Definition set_ctx (s : state) (ctx : Context) : state :=
  let '(mkState p h t _ tr) := s in mkState p h t (Some ctx) tr.

(** [if err != nil { logger.Error(ctx, msg, {"error": err.Error()}) }] *)
Definition log_error (s : state) (msg : string) (err : option string) : state :=
  match err with
  | Some e => emit s (EvLog Logging.ERROR msg (Some e))
  | None => s
  end.

Section Main.

(** What [main] waits for. [muLock t] is when [h.mu.Lock()], called at
    time [t] by [SetShuttingDown] or [SetReady], is granted: at once on a
    free lock, later or never while a [Check] holds the read side.
    [Shutdown c ctx t] is the call [c.Shutdown(ctx)] made at time [t],
    returning at some time with an error or nil, or never; [wgWait t] is
    when [wg.Wait()], called at [t], returns, that is when both serving
    goroutines have ended. *)
Variable muLock : Z → option Z.
Variable Shutdown : component → Context → Z → option (Z * option string).
Variable wgWait : Z → option Z.

(** One step of [main]; [None] when it has returned or is blocked for
    ever. Statements that do not block take no time; a setter assigns
    when its lock is granted and unlocks at once. *)
Definition step (s : state) : option state :=
  match at_pc s with
  | SignalReceived =>
      Some (goto (emit s (EvLog Logging.INFO
              "Shutdown signal received, initiating graceful shutdown" None))
              MakeContext)
  | MakeContext =>
      Some (goto (set_ctx s (WithTimeout Background (clock s) (30 * Second)))
              MarkShuttingDown)
  | MarkShuttingDown =>
      t ← muLock (clock s);
      Some (goto (emit (set_health (set_clock s t)
                                   (SetShuttingDown (health s) true))
                       (EvSetShuttingDown true)) MarkNotReady)
  | MarkNotReady =>
      t ← muLock (clock s);
      Some (goto (emit (set_health (set_clock s t)
                                   (SetReady (health s) false))
                       (EvSetReady false)) HTTPShutdown)
  | HTTPShutdown =>
      ctx ← shutdownCtx s;
      Some (goto (emit s (EvShutdownCall HTTPServer ctx (clock s)))
              HTTPShutdownWait)
  | HTTPShutdownWait =>
      ctx ← shutdownCtx s;
      '(t, err) ← Shutdown HTTPServer ctx (clock s);
      Some (goto (log_error (emit (set_clock s t)
                                  (EvShutdownReturn HTTPServer t err))
                            "HTTP server shutdown error" err)
              TunnelShutdown)
  | TunnelShutdown =>
      ctx ← shutdownCtx s;
      Some (goto (emit s (EvShutdownCall TunnelServer ctx (clock s)))
              TunnelShutdownWait)
  | TunnelShutdownWait =>
      ctx ← shutdownCtx s;
      '(t, err) ← Shutdown TunnelServer ctx (clock s);
      Some (goto (log_error (emit (set_clock s t)
                                  (EvShutdownReturn TunnelServer t err))
                            "Tunnel server shutdown error" err)
              WaitGroup)
  | WaitGroup =>
      t ← wgWait (clock s);
      Some (goto (emit (set_clock s t) (EvWaitReturn t)) Completed)
  | Completed =>
      Some (goto (emit s (EvLog Logging.INFO "Graceful shutdown completed" None))
              Returned)
  | Returned => None
  end.

(** The state after at most [n] steps. *)
Fixpoint steps (n : nat) (s : state) : state :=
  match n with
  | O => s
  | S n' => match step s with
            | Some s' => steps n' s'
            | None => s
            end
  end.

(** The states a concurrent probe can find the process in. *)
Definition reachable (t0 : Z) (h : HealthService) (s : state) : Prop :=
  ∃ n, steps n (init t0 h) = s.

End Main.

(** Teardown of a component has begun once its [Shutdown] has been called. *)
Definition teardown_begun (s : state) : bool :=
  match at_pc s with
  | SignalReceived | MakeContext | MarkShuttingDown | MarkNotReady
  | HTTPShutdown => false
  | _ => true
  end.

(** Teardown has completed once both [Shutdown] calls have returned. *)
Definition teardown_completed (s : state) : bool :=
  match at_pc s with
  | WaitGroup | Completed | Returned => true
  | _ => false
  end.

(** Draining has started once the transition from Running to Draining
    has been made, that is once both flags are written. *)
Definition draining_started (s : state) : bool :=
  match at_pc s with
  | SignalReceived | MakeContext | MarkShuttingDown | MarkNotReady => false
  | _ => true
  end.

(** When the teardown of component [c] started, if it did. *)
Fixpoint teardown_start (c : component) (tr : list event) : option Z :=
  match tr with
  | [] => None
  | EvShutdownCall c' _ t :: rest =>
      match c, c' with
      | HTTPServer, HTTPServer | TunnelServer, TunnelServer => Some t
      | _, _ => teardown_start c rest
      end
  | _ :: rest => teardown_start c rest
  end.

End Server.

(** * The reader-writer lock of HealthService

    Goroutines calling the methods of one [*HealthService] concurrently,
    as an interleaving of the atomic steps each method is made of. Every
    method starts by taking [h.mu] ([Lock] for the three setters, [RLock]
    for [Check]) and releases it by a deferred unlock when it returns. *)
Module Locking.
Import Health.

(** The fields of the struct: the guarded data and the state of
    [sync.RWMutex] (number of read holders, whether a writer holds it). *)
Record shared : Type := mkShared {
  data : HealthService;
  readers : nat;
  writer : bool
}.

Inductive call : Type :=
  | CallRegisterChecker (checker : HealthChecker)
  | CallSetReady (b : bool)
  | CallSetShuttingDown (b : bool)
  | CallCheck (now : string) (ctx : Context).

(** The assignment in the body of a setter. *)
Definition assign (c : call) (h : HealthService) : HealthService :=
  match c with
  | CallRegisterChecker checker => RegisterChecker h checker
  | CallSetReady b => SetReady h b
  | CallSetShuttingDown b => SetShuttingDown h b
  | CallCheck _ _ => h
  end.

(** A finished [Check]: its arguments, the report it returned, and the
    registry as it was when the call took the read lock. *)
Record finished : Type := mkFinished {
  fin_snapshot : HealthService;
  fin_now : string;
  fin_ctx : Context;
  fin_report : gmap string value
}.

(** Program points inside a method. The points of [Check] carry its
    locals, the entries the range loop has visited, and [snapshot], the
    registry as the call found it when [RLock] returned (not a variable of
    the program: it is what the report is compared with). *)
Inductive frame : Type :=
  | AtLock (c : call)
  | AtAssign (c : call)
  | AtUnlock
  | AtRLock (now : string) (ctx : Context)
  | AtReadReady (now : string) (ctx : Context) (snapshot : HealthService)
      (res : gmap string value)
  | AtReadShuttingDown (now : string) (ctx : Context) (snapshot : HealthService)
      (res : gmap string value)
  | AtRange (now : string) (ctx : Context) (snapshot : HealthService)
      (visited : list (string * HealthChecker)) (st : loop_state)
  | AtRUnlock (now : string) (ctx : Context) (snapshot : HealthService)
      (report : gmap string value).

(** A goroutine: the call it is in, the calls it will make, and the
    [Check] calls it has completed. *)
Record thread : Type := mkThread {
  current : option frame;
  todo : list call;
  completed : list finished
}.

Definition enter (c : call) : frame :=
  match c with
  | CallCheck now ctx => AtRLock now ctx
  | _ => AtLock c
  end.

(** One atomic step of one goroutine. *)
Inductive tstep : shared → thread → shared → thread → Prop :=
  | step_call sh c rest done :
      tstep sh {| current := None; todo := c :: rest; completed := done |}
            sh {| current := Some (enter c); todo := rest; completed := done |}
  | step_Lock sh c rest done :
      readers sh = 0%nat → writer sh = false →
      tstep sh {| current := Some (AtLock c); todo := rest; completed := done |}
            {| data := data sh; readers := readers sh; writer := true |}
            {| current := Some (AtAssign c); todo := rest; completed := done |}
  | step_assign sh c rest done :
      tstep sh {| current := Some (AtAssign c); todo := rest; completed := done |}
            {| data := assign c (data sh); readers := readers sh;
               writer := writer sh |}
            {| current := Some AtUnlock; todo := rest; completed := done |}
  | step_Unlock sh rest done :
      tstep sh {| current := Some AtUnlock; todo := rest; completed := done |}
            {| data := data sh; readers := readers sh; writer := false |}
            {| current := None; todo := rest; completed := done |}
  | step_RLock sh now ctx rest done :
      writer sh = false →
      tstep sh {| current := Some (AtRLock now ctx); todo := rest;
                  completed := done |}
            {| data := data sh; readers := S (readers sh); writer := writer sh |}
            {| current := Some (AtReadReady now ctx (data sh)
                                  (<["timestamp" := VString now]>
                                     (<["status" := VString "healthy"]> ∅)));
               todo := rest; completed := done |}
  | step_read_ready sh now ctx snap res rest done :
      tstep sh {| current := Some (AtReadReady now ctx snap res); todo := rest;
                  completed := done |}
            sh {| current := Some (AtReadShuttingDown now ctx snap
                                     (<["ready" := VBool (ready (data sh))]> res));
                  todo := rest; completed := done |}
  | step_read_shuttingDown sh now ctx snap res rest done :
      tstep sh {| current := Some (AtReadShuttingDown now ctx snap res);
                  todo := rest; completed := done |}
            sh {| current := Some (AtRange now ctx snap []
                     {| result := <["shutting_down" :=
                                      VBool (shuttingDown (data sh))]> res;
                        checkResults := ∅; invoked := [] |});
                  todo := rest; completed := done |}
  | step_range_next sh now ctx snap visited st name checker st' rest done :
      checkers (data sh) !! name = Some checker →
      name ∉ visited.*1 →
      loop_body ctx name checker st = Some st' →
      tstep sh {| current := Some (AtRange now ctx snap visited st);
                  todo := rest; completed := done |}
            sh {| current := Some (AtRange now ctx snap
                                     (visited ++ [(name, checker)]) st');
                  todo := rest; completed := done |}
  | step_range_end sh now ctx snap visited st rest done :
      (∀ name, name ∈ dom (checkers (data sh)) → name ∈ visited.*1) →
      tstep sh {| current := Some (AtRange now ctx snap visited st);
                  todo := rest; completed := done |}
            sh {| current := Some (AtRUnlock now ctx snap
                     (<["checks" := VMap (checkResults st)]> (result st)));
                  todo := rest; completed := done |}
  | step_RUnlock sh now ctx snap report rest done :
      tstep sh {| current := Some (AtRUnlock now ctx snap report); todo := rest;
                  completed := done |}
            {| data := data sh; readers := pred (readers sh);
               writer := writer sh |}
            {| current := None; todo := rest;
               completed := done ++ [{| fin_snapshot := snap; fin_now := now;
                                        fin_ctx := ctx; fin_report := report |}] |}.

(** The whole program: the struct and the goroutines. *)
Definition config : Type := shared * list thread.

(** Any goroutine that can move may move next. *)
Inductive cstep : config → config → Prop :=
  | cstep_thread sh pool i t sh' t' :
      pool !! i = Some t →
      tstep sh t sh' t' →
      cstep (sh, pool) (sh', <[i := t']> pool).

(** Goroutines that have not started, on an unlocked registry. *)
Definition initial (h : HealthService) (programs : list (list call)) : config :=
  ({| data := h; readers := 0; writer := false |},
   (λ p, {| current := None; todo := p; completed := [] |}) <$> programs).

(** The snapshot of an aggregation in progress. *)
Definition aggregating (t : thread) : option HealthService :=
  match current t with
  | Some (AtReadReady _ _ snap _) | Some (AtReadShuttingDown _ _ snap _)
  | Some (AtRange _ _ snap _ _) | Some (AtRUnlock _ _ snap _) => Some snap
  | _ => None
  end.

(** Holding the write side. *)
Definition writing (t : thread) : bool :=
  match current t with
  | Some (AtAssign _) | Some AtUnlock => true
  | _ => false
  end.

End Locking.

(** * cmd/client/main.go *)
Module Client.

(** [configPath := os.Getenv("GOTUNNEL_CONFIG")], replaced by the default
    when empty; an unset variable reads as the empty string. *)
Definition configPath (env : string) : string :=
  if bool_decide (env = "") then "config/client.yaml" else env.

(** [func parseLogLevel(level string) logging.Level] of the client. *)
Definition parseLogLevel (lvl : string) : Logging.Level := Logging.INFO.

(** What the client's [main] does after the signal, in order. *)
Inductive event : Type :=
  | EvLog (lvl : Logging.Level) (msg : string) (err : option string)
  | EvShutdownCall (ctx : Context) (at_time : Z)
  | EvShutdownReturn (at_time : Z) (err : option string)
  | EvWaitReturn (at_time : Z).

Inductive pc : Type :=
  | SignalReceived
  | MakeContext
  | ClientShutdown
  | ClientShutdownWait
  | WaitGroup
  | Stopped
  | Returned.

Record state : Type := mkState {
  at_pc : pc;
  clock : Z;
  shutdownCtx : option Context;
  trace : list event
}.

Definition init (t0 : Z) : state :=
  {| at_pc := SignalReceived; clock := t0; shutdownCtx := None; trace := [] |}.

Definition goto (s : state) (p : pc) : state :=
  let '(mkState _ t ctx tr) := s in mkState p t ctx tr.

Definition emit (s : state) (e : event) : state :=
  let '(mkState p t ctx tr) := s in mkState p t ctx (tr ++ [e]).

Definition set_clock (s : state) (t : Z) : state :=
  let '(mkState p _ ctx tr) := s in mkState p t ctx tr.

Definition set_ctx (s : state) (ctx : Context) : state :=
  let '(mkState p t _ tr) := s in mkState p t (Some ctx) tr.

Definition log_error (s : state) (msg : string) (err : option string) : state :=
  match err with
  | Some e => emit s (EvLog Logging.ERROR msg (Some e))
  | None => s
  end.

Section Main.

(** [Shutdown ctx t] is [client.Shutdown(ctx)] called at time [t];
    [wgWait t] is when [wg.Wait()], called at [t], returns. *)
Variable Shutdown : Context → Z → option (Z * option string).
Variable wgWait : Z → option Z.

(** One step of the client's [main] from [<-sigChan] on. *)
Definition step (s : state) : option state :=
  match at_pc s with
  | SignalReceived =>
      Some (goto (emit s (EvLog Logging.INFO "Shutdown signal received" None))
              MakeContext)
  | MakeContext =>
      Some (goto (set_ctx s (WithTimeout Background (clock s)
                               (30 * Server.Second)))
              ClientShutdown)
  | ClientShutdown =>
      ctx ← shutdownCtx s;
      Some (goto (emit s (EvShutdownCall ctx (clock s))) ClientShutdownWait)
  | ClientShutdownWait =>
      ctx ← shutdownCtx s;
      '(t, err) ← Shutdown ctx (clock s);
      Some (goto (log_error (emit (set_clock s t) (EvShutdownReturn t err))
                            "Client shutdown error" err)
              WaitGroup)
  | WaitGroup =>
      t ← wgWait (clock s);
      Some (goto (emit (set_clock s t) (EvWaitReturn t)) Stopped)
  | Stopped =>
      Some (goto (emit s (EvLog Logging.INFO "Client stopped gracefully" None))
              Returned)
  | Returned => None
  end.

Fixpoint steps (n : nat) (s : state) : state :=
  match n with
  | O => s
  | S n' => match step s with
            | Some s' => steps n' s'
            | None => s
            end
  end.

End Main.

End Client.

(** * internal/crypto *)
Module Crypto.

(** [tls.ClientAuthType]; the zero value is [NoClientCert]. *)
Inductive ClientAuthType : Type :=
  | NoClientCert
  | RequestClientCert
  | RequireAnyClientCert
  | VerifyClientCertIfGiven
  | RequireAndVerifyClientCert.

(** [tls.VersionTLS13] *)
Definition VersionTLS13 : Z := 772.

Section WithTLS.

(** The collaborators from the Go standard library: certificates and
    pools are opaque; a call that returns [(v, err)] is a sum whose right
    side is the text of the error. [AppendCertsFromPEM pool pem] is the
    pool after the call and whether a certificate was added. *)
Variables Certificate CertPool : Type.
Variable LoadX509KeyPair : string → string → Certificate + string.
Variable ReadFile : string → string + string.
Variable NewCertPool : CertPool.
Variable AppendCertsFromPEM : CertPool → string → CertPool * bool.

(** The fields of [tls.Config] the function sets; a nil pool is [None]. *)
Record Config : Type := mkConfig {
  Certificates : list Certificate;
  RootCAs : option CertPool;
  ClientCAs : option CertPool;
  ClientAuth : ClientAuthType;
  MinVersion : Z
}.

(** [func LoadMTLSConfig(certFile, keyFile, caFile string, isServer bool)]:
    the configuration, or the text of the error. *)
Definition LoadMTLSConfig (certFile keyFile caFile : string) (isServer : bool)
  : Config + string :=
  match LoadX509KeyPair certFile keyFile with
  | inr err => inr ("failed to load certificate: " +:+ err)
  | inl cert =>
      match ReadFile caFile with
      | inr err => inr ("failed to load CA certificate: " +:+ err)
      | inl caCert =>
          let '(caCertPool, ok) := AppendCertsFromPEM NewCertPool caCert in
          if negb ok then inr "failed to parse CA certificate"
          else
            let tlsConfig := {| Certificates := [cert];
                                RootCAs := Some caCertPool;
                                ClientCAs := None;
                                ClientAuth := NoClientCert;
                                MinVersion := VersionTLS13 |} in
            if isServer
            then inl {| Certificates := Certificates tlsConfig;
                        RootCAs := RootCAs tlsConfig;
                        ClientCAs := Some caCertPool;
                        ClientAuth := RequireAndVerifyClientCert;
                        MinVersion := MinVersion tlsConfig |}
            else inl tlsConfig
      end
  end.

End WithTLS.

End Crypto.

(** * Vocabulary of the specification *)

Import Health Server.

(** The checker answers the call (with nil or with an error). *)
Definition responds (ctx : Context) (c : HealthChecker) : Prop :=
  CheckerCheck c ctx ≠ NeverReturns.

(** The checker's [Check] returns a non-nil error. *)
Definition failsb (ctx : Context) (c : HealthChecker) : bool :=
  match CheckerCheck c ctx with
  | Returns (Some _) => true
  | _ => false
  end.

Definition fails (ctx : Context) (c : HealthChecker) : Prop :=
  failsb ctx c = true.

(** The registry's keys are the names of the checkers stored under them,
    as [RegisterChecker] leaves it. *)
Definition keyed_by_name (h : HealthService) : Prop :=
  map_Forall (λ name c, Name c = name) (checkers h).

(** The five keys of a report. *)
Definition report_keys : gset string :=
  {[ "status"; "timestamp"; "ready"; "shutting_down"; "checks" ]}.

(** Some registered checker fails. *)
Definition any_fails (ctx : Context) (h : HealthService) : bool :=
  existsb (λ kc, failsb ctx kc.2) (map_to_list (checkers h)).

(** Checkers for examples: one that fails with a reason, one that never
    answers. *)
Definition failing_checker (name reason : string) : HealthChecker :=
  {| Name := name; CheckerCheck := λ _, Returns (Some reason) |}.

Definition stuck_checker (name : string) : HealthChecker :=
  {| Name := name; CheckerCheck := λ _, NeverReturns |}.

(** A registry as [main] could set it up: ready, with a failing
    certificate checker and a passing connection checker. *)
Definition example_registry : HealthService :=
  RegisterChecker
    (RegisterChecker (SetReady NewHealthService true)
                     (failing_checker "certificate" "cert expired"))
    (TunnelConnectionChecker 1).

(** A registry whose only checker never answers. *)
Definition stuck_registry : HealthService :=
  RegisterChecker (SetReady NewHealthService true) (stuck_checker "database").

(** A registry that is ready and has no checkers. *)
Definition ready_registry : HealthService := SetReady NewHealthService true.

(** An encoder for examples: it prints the status only. *)
Definition status_only (m : gmap string value) : string :=
  match m !! "status" with
  | Some (VString s) => s
  | _ => ""
  end.

(** The registry after both writes of the shutdown sequence. *)
Definition drained (h : HealthService) : HealthService :=
  SetReady (SetShuttingDown h true) false.

Definition signal_log : event :=
  EvLog Logging.INFO "Shutdown signal received, initiating graceful shutdown"
        None.

Definition completed_log : event :=
  EvLog Logging.INFO "Graceful shutdown completed" None.

(** What [main] has done when it is about to call the first [Shutdown]. *)
Definition flag_prefix : list event :=
  [signal_log; EvSetShuttingDown true; EvSetReady false].

(** The log line a returned error leaves. *)
Definition error_log (msg : string) (err : option string) : list event :=
  match err with
  | Some e => [EvLog Logging.ERROR msg (Some e)]
  | None => []
  end.

(** The context [main] creates when the signal arrived at [t0]. *)
Definition shutdown_context (t0 : Z) : Context :=
  WithTimeout Background t0 (30 * Second).

(** The first flag write of the shutdown sequence is done. *)
Definition shutting_down_written (s : state) : bool :=
  match at_pc s with
  | SignalReceived | MakeContext | MarkShuttingDown => false
  | _ => true
  end.

(** What holds at each program point of the shutdown sequence. *)
Definition shutdown_inv (t0 : Z) (h : HealthService) (s : state) : Prop :=
  match at_pc s with
  | SignalReceived =>
      health s = h ∧ trace s = [] ∧ clock s = t0 ∧ shutdownCtx s = None
  | MakeContext =>
      health s = h ∧ trace s = [signal_log] ∧ clock s = t0
      ∧ shutdownCtx s = None
  | MarkShuttingDown =>
      health s = h ∧ trace s = [signal_log]
      ∧ shutdownCtx s = Some (shutdown_context t0)
  | MarkNotReady =>
      health s = SetShuttingDown h true
      ∧ trace s = [signal_log; EvSetShuttingDown true]
      ∧ shutdownCtx s = Some (shutdown_context t0)
  | HTTPShutdown =>
      health s = drained h ∧ trace s = flag_prefix
      ∧ shutdownCtx s = Some (shutdown_context t0)
  | HTTPShutdownWait =>
      health s = drained h
      ∧ shutdownCtx s = Some (shutdown_context t0)
      ∧ trace s = flag_prefix
                  ++ [EvShutdownCall HTTPServer (shutdown_context t0) (clock s)]
  | _ =>
      health s = drained h
      ∧ shutdownCtx s = Some (shutdown_context t0)
      ∧ ∃ tw rest, trace s = flag_prefix
                     ++ EvShutdownCall HTTPServer (shutdown_context t0) tw
                        :: rest
  end.

(** Components for examples. A prompt one returns nil at once; a slow
    HTTP server returns only when the deadline of its context is reached,
    with the context's error. *)
Definition prompt (c : component) (ctx : Context) (t : Z)
  : option (Z * option string) := Some (t, None).

Definition slow_http (c : component) (ctx : Context) (t : Z)
  : option (Z * option string) :=
  match c with
  | HTTPServer => Some (default t (Deadline ctx),
                        Some "context deadline exceeded")
  | TunnelServer => Some (t, None)
  end.

(** [wg.Wait()] returning at once: both goroutines have ended. *)
Definition no_wait (t : Z) : option Z := Some t.

(** A lock nobody holds is granted at once; a lock whose read side a
    stuck [Check] never releases is never granted. *)
Definition free_lock (t : Z) : option Z := Some t.

Definition held_lock (t : Z) : option Z := None.

(** A world for examples: nothing allocated, then the logger of the
    server; and stand-ins for the JSON encoder and the clock's format. *)
Definition empty_world : Logging.World :=
  {| Logging.loggers := ∅; Logging.formatters := ∅; Logging.files := ∅ |}.

Definition server_world : Logging.World * Logging.loc :=
  Logging.NewLogger empty_world "gotunnel-server" "production" Logging.INFO.

Definition message_only (e : Logging.LogEntry) : option string :=
  Some (Logging.Message e).

Definition message_only_indent (e : Logging.LogEntry) (pre ind : string)
  : option string := Some (Logging.Message e).

Definition no_clock (now : Z) (layout : string) : string := layout.

(** What a program can do with the loggers of a world once it has them:
    make a logger, derive one, log through one. ([Fatal] ends the
    program.) *)
Inductive logger_op : Type :=
  | OpNewLogger (service env : string) (lvl : Logging.Level)
  | OpWithFields (l : Logging.loc) (fields : option (gmap string value))
  | OpLog (now : Z) (l : Logging.loc) (ctx : Context) (lvl : Logging.Level)
      (msg : string) (fields : option (gmap string value)).

(** The world after one such operation; [None] when it panics. *)
Definition run_op (Marshal : Logging.LogEntry → option string)
    (MarshalIndent : Logging.LogEntry → string → string → option string)
    (FormatTime : Z → string → string)
    (w : Logging.World) (o : logger_op) : option Logging.World :=
  match o with
  | OpNewLogger service env lvl => Some (Logging.NewLogger w service env lvl).1
  | OpWithFields l fields => fst <$> Logging.WithFields w l fields
  | OpLog now l ctx lvl msg fields =>
      match Logging.log Marshal MarshalIndent FormatTime now w l ctx lvl msg
                        fields with
      | Logging.Done w' => Some w'
      | _ => None
      end
  end.

(** The world after a sequence of them. *)
Fixpoint run_ops (Marshal : Logging.LogEntry → option string)
    (MarshalIndent : Logging.LogEntry → string → string → option string)
    (FormatTime : Z → string → string)
    (w : Logging.World) (ops : list logger_op) : option Logging.World :=
  match ops with
  | [] => Some w
  | o :: rest =>
      match run_op Marshal MarshalIndent FormatTime w o with
      | Some w' => run_ops Marshal MarshalIndent FormatTime w' rest
      | None => None
      end
  end.

(** The world and the logger that [WithFields] on the server's logger
    gives, and what the program of the example does afterwards. *)
Definition derived_world : Logging.World * Logging.loc :=
  default server_world
    (Logging.WithFields server_world.1 server_world.2
       (Some (<["request" := VString "42"]> ∅))).

Definition later_ops : list logger_op :=
  [OpNewLogger "gotunnel-client" "production" Logging.DEBUG;
   OpWithFields server_world.2 None;
   OpLog 0 server_world.2 Background Logging.ERROR "listen failed" None].

(** The state a loop of [Check] starts from. *)
Definition loop_start (now : string) (h : HealthService) : loop_state :=
  {| result := initial_result now h; checkResults := ∅; invoked := [] |}.

(** ** Invariant of the locking discipline *)

(** The goroutine holds the read side of the lock. *)
Definition reading (t : Locking.thread) : bool :=
  match Locking.aggregating t with
  | Some _ => true
  | None => false
  end.

(** How many goroutines of the pool satisfy [f]. *)
Fixpoint holders (f : Locking.thread → bool) (pool : list Locking.thread)
  : nat :=
  match pool with
  | [] => 0%nat
  | t :: rest => ((if f t then 1 else 0) + holders f rest)%nat
  end.

(** What the locals of a [Check] in progress are, given the registry [d]
    now: the registry is still the one found at [RLock], and the locals
    are what the sequential [Check] has computed from it so far. *)
Definition frame_ok (d : HealthService) (fr : Locking.frame) : Prop :=
  match fr with
  | Locking.AtReadReady now ctx snap res =>
      snap = d
      ∧ res = <["timestamp" := VString now]>
                (<["status" := VString "healthy"]> ∅)
  | Locking.AtReadShuttingDown now ctx snap res =>
      snap = d
      ∧ res = <["ready" := VBool (ready snap)]>
                (<["timestamp" := VString now]>
                   (<["status" := VString "healthy"]> ∅))
  | Locking.AtRange now ctx snap visited st =>
      snap = d
      ∧ NoDup visited.*1
      ∧ (∀ name c, (name, c) ∈ visited → checkers snap !! name = Some c)
      ∧ range_checkers ctx visited (loop_start now snap) = Some st
  | Locking.AtRUnlock now ctx snap report =>
      snap = d ∧ Check now snap ctx = Some report
  | _ => True
  end.

(** The report of a finished [Check] is the report of the sequential
    [Check] on the registry it found. *)
Definition finished_ok (f : Locking.finished) : Prop :=
  Check (Locking.fin_now f) (Locking.fin_snapshot f) (Locking.fin_ctx f)
  = Some (Locking.fin_report f).

Definition thread_ok (d : HealthService) (t : Locking.thread) : Prop :=
  match Locking.current t with
  | Some fr => frame_ok d fr
  | None => True
  end
  ∧ Forall finished_ok (Locking.completed t).

(** The lock state counts its holders, a writer excludes readers, and
    every goroutine's locals agree with the registry. *)
Definition lock_inv (cfg : Locking.config) : Prop :=
  Locking.readers cfg.1 = holders reading cfg.2
  ∧ (if Locking.writer cfg.1 then 1%nat else 0%nat)
    = holders Locking.writing cfg.2
  ∧ (Locking.writer cfg.1 = true → Locking.readers cfg.1 = 0%nat)
  ∧ Forall (thread_ok (Locking.data cfg.1)) cfg.2.

(** Two goroutines for examples: one aggregates, one marks the registry
    as shutting down. *)
Definition two_goroutines : list (list Locking.call) :=
  [[Locking.CallCheck "2024-05-01T10:00:00Z" Background];
   [Locking.CallSetShuttingDown true]].

(** The first goroutine has taken the read lock and read the ready flag;
    the second has not been able to start writing. *)
Definition mid_aggregation : Locking.config :=
  ({| Locking.data := ready_registry; Locking.readers := 1;
      Locking.writer := false |},
   [{| Locking.current :=
         Some (Locking.AtReadShuttingDown "2024-05-01T10:00:00Z" Background
                 ready_registry
                 (<["ready" := VBool true]>
                    (<["timestamp" := VString "2024-05-01T10:00:00Z"]>
                       (<["status" := VString "healthy"]> ∅))));
       Locking.todo := []; Locking.completed := [] |};
    {| Locking.current := Some (Locking.AtLock (Locking.CallSetShuttingDown true));
       Locking.todo := []; Locking.completed := [] |}]).

(** ** Sequences of calls on a registry *)

(** The registry after the calls, made one after the other. *)
Definition apply_calls (h : HealthService) (calls : list Locking.call)
  : HealthService :=
  foldl (λ acc c, Locking.assign c acc) h calls.

(** The checkers the calls register, in order. *)
Definition registered (calls : list Locking.call) : list HealthChecker :=
  omap (λ c, match c with
             | Locking.CallRegisterChecker k => Some k
             | _ => None
             end) calls.

(** The last checker registered under [name], if any. *)
Definition last_registered (name : string) (calls : list Locking.call)
  : option HealthChecker :=
  last (filter (λ k, Name k = name) (registered calls)).

(** A loop state whose [result] map has been passed through [g]. *)
Definition with_result (g : gmap string value → gmap string value)
    (st : loop_state) : loop_state :=
  {| result := g (result st); checkResults := checkResults st;
     invoked := invoked st |}.

(** A registry that starts shutting down between a handler's first and
    second call. *)
Definition flipping_view : view :=
  λ k, match k with
       | O => ready_registry
       | _ => SetShuttingDown ready_registry true
       end.

(** Which blocking calls of the server's shutdown sequence have returned,
    by program point. *)
Definition returns_inv (muLock : Z → option Z)
    (Shutdown : component → Context → Z → option (Z * option string))
    (wgWait : Z → option Z) (t0 : Z) (s : state) : Prop :=
  match at_pc s with
  | SignalReceived | MakeContext => clock s = t0
  | MarkShuttingDown =>
      clock s = t0 ∧ shutdownCtx s = Some (shutdown_context t0)
  | MarkNotReady =>
      shutdownCtx s = Some (shutdown_context t0)
      ∧ muLock t0 = Some (clock s)
  | HTTPShutdown | HTTPShutdownWait =>
      shutdownCtx s = Some (shutdown_context t0)
      ∧ ∃ ta, muLock t0 = Some ta ∧ muLock ta = Some (clock s)
  | TunnelShutdown | TunnelShutdownWait =>
      shutdownCtx s = Some (shutdown_context t0)
      ∧ ∃ ta tb e1,
          muLock t0 = Some ta ∧ muLock ta = Some tb
          ∧ Shutdown HTTPServer (shutdown_context t0) tb = Some (clock s, e1)
  | WaitGroup =>
      ∃ ta tb t1 e1 e2,
        muLock t0 = Some ta ∧ muLock ta = Some tb
        ∧ Shutdown HTTPServer (shutdown_context t0) tb = Some (t1, e1)
        ∧ Shutdown TunnelServer (shutdown_context t0) t1 = Some (clock s, e2)
  | Completed | Returned =>
      ∃ ta tb t1 e1 t2 e2,
        muLock t0 = Some ta ∧ muLock ta = Some tb
        ∧ Shutdown HTTPServer (shutdown_context t0) tb = Some (t1, e1)
        ∧ Shutdown TunnelServer (shutdown_context t0) t1 = Some (t2, e2)
        ∧ wgWait t2 = Some (clock s)
  end.

(** A client whose [Shutdown] fails after two seconds. *)
Definition failing_client (ctx : Context) (t : Z)
  : option (Z * option string) :=
  Some (t + 2 * Second, Some "connection reset").

(** ** Logging *)

(** The chunks written to a file so far. *)
Definition written (w : Logging.World) (f : Logging.loc) : list string :=
  default [] (Logging.files w !! f).

(** The context carries a value under [key] that is not a string. *)
Definition not_a_string (ctx : Context) (key : string) : Prop :=
  ∃ z, Value ctx key = Some (AnyInt z).

(** The entry [log] hands to the formatter. *)
Definition log_entry (L : Logging.Logger) (lvl : Logging.Level) (msg : string)
    (traceID spanID : string) (fields : option (gmap string value))
  : Logging.LogEntry :=
  {| Logging.Timestamp := "";
     Logging.LevelName := Logging.Level_String lvl;
     Logging.Service := Logging.serviceName L;
     Logging.Environment := Logging.environment L;
     Logging.Message := msg;
     Logging.TraceID := traceID;
     Logging.SpanID := spanID;
     Logging.Fields := fields |}.

(** Two entries that differ at most in their timestamp. *)
Definition same_but_timestamp (e e' : Logging.LogEntry) : Prop :=
  Logging.LevelName e = Logging.LevelName e'
  ∧ Logging.Service e = Logging.Service e'
  ∧ Logging.Environment e = Logging.Environment e'
  ∧ Logging.Message e = Logging.Message e'
  ∧ Logging.TraceID e = Logging.TraceID e'
  ∧ Logging.SpanID e = Logging.SpanID e'
  ∧ Logging.Fields e = Logging.Fields e'.

(** A context whose trace id is a number. *)
Definition numeric_trace_ctx : Context :=
  {| Deadline := None;
     Value := λ key, if bool_decide (key = "trace_id")
                     then Some (AnyInt 7) else None |}.

(** ** Examples for the client, the TLS configuration and the lock *)

Definition client_error_log (err : option string) : list Client.event :=
  match err with
  | Some e => [Client.EvLog Logging.ERROR "Client shutdown error" (Some e)]
  | None => []
  end.

(** Stand-ins for the certificate loaders: a key pair is the two file
    names, a file holds its own name, and every non-empty file holds one
    certificate. *)
Definition sample_key_pair (certFile keyFile : string) : string + string :=
  inl (certFile +:+ "+" +:+ keyFile).

Definition sample_read (file : string) : string + string := inl file.

Definition sample_append (pool : list string) (pem : string)
  : list string * bool :=
  if bool_decide (pem = "") then (pool, false) else (pool ++ [pem], true).

(** The second goroutine of [two_goroutines] holds the write lock and has
    not assigned yet. *)
Definition mid_write : Locking.config :=
  ({| Locking.data := ready_registry; Locking.readers := 0;
      Locking.writer := true |},
   [{| Locking.current := None;
       Locking.todo := [Locking.CallCheck "2024-05-01T10:00:00Z" Background];
       Locking.completed := [] |};
    {| Locking.current :=
         Some (Locking.AtAssign (Locking.CallSetShuttingDown true));
       Locking.todo := []; Locking.completed := [] |}]).

(** The first goroutine is in the range loop of a [Check] on a registry
    whose only checker never answers. *)
Definition stuck_thread : Locking.thread :=
  {| Locking.current :=
       Some (Locking.AtRange "2024-05-01T10:00:00Z" Background stuck_registry
               [] (loop_start "2024-05-01T10:00:00Z" stuck_registry));
     Locking.todo := []; Locking.completed := [] |}.

Definition stuck_aggregation : Locking.config :=
  ({| Locking.data := stuck_registry; Locking.readers := 1;
      Locking.writer := false |},
   [stuck_thread;
    {| Locking.current := None;
       Locking.todo := [Locking.CallSetShuttingDown true];
       Locking.completed := [] |}]).

(** * The range loop of Check *)

Section RangeLoop.
Context (ctx : Context).
Implicit Types (order : list (string * HealthChecker)) (st : loop_state).

Lemma loop_body_Some name c st :
  responds ctx c → is_Some (loop_body ctx name c st).
Proof.
  unfold responds, loop_body. destruct (CheckerCheck c ctx) as [[e|]|]; eauto.
  congruence.
Qed.

Lemma loop_body_None name c st :
  CheckerCheck c ctx = NeverReturns → loop_body ctx name c st = None.
Proof. unfold loop_body. by intros ->. Qed.

Lemma loop_body_inv name c st st' :
  loop_body ctx name c st = Some st' →
  ∃ e, CheckerCheck c ctx = Returns e
       ∧ result st' = (if failsb ctx c
                       then <["status" := VString "unhealthy"]> (result st)
                       else result st)
       ∧ checkResults st' = <[name := check_entry e]> (checkResults st)
       ∧ invoked st' = (name, c) :: invoked st.
Proof.
  unfold loop_body, failsb.
  destruct (CheckerCheck c ctx) as [[e|]|]; intros [= <-]; eauto.
Qed.

Lemma range_checkers_app order1 order2 st :
  range_checkers ctx (order1 ++ order2) st
  = range_checkers ctx order1 st ≫= range_checkers ctx order2.
Proof.
  revert st. induction order1 as [|[name c] rest IH]; intros st; simpl; [done|].
  destruct (loop_body ctx name c st); simpl; auto.
Qed.

(** The loop ends exactly when every visited checker answers. *)
Lemma range_checkers_is_Some order st :
  is_Some (range_checkers ctx order st) ↔ Forall (λ kc, responds ctx kc.2) order.
Proof.
  revert st. induction order as [|[name c] rest IH]; intros st; simpl.
  - split; eauto.
  - rewrite Forall_cons. simpl. split.
    + destruct (loop_body ctx name c st) as [st1|] eqn:Hb.
      * intros Hs. apply loop_body_inv in Hb as (e & He & _). split.
        -- unfold responds. congruence.
        -- by apply (IH st1).
      * by intros [? ?].
    + intros [Hc Hrest].
      destruct (loop_body_Some name c st Hc) as [st1 ->]. by apply IH.
Qed.

(** The overall status is flipped by the first failure and never back. *)
Lemma range_checkers_result order st st' :
  range_checkers ctx order st = Some st' →
  result st' = (if existsb (λ kc, failsb ctx kc.2) order
                then <["status" := VString "unhealthy"]> (result st)
                else result st).
Proof.
  revert st. induction order as [|[name c] rest IH]; intros st; simpl.
  - by intros [= <-].
  - destruct (loop_body ctx name c st) as [st1|] eqn:Hb; [|done].
    intros Hr. apply loop_body_inv in Hb as (e & _ & Hres & _).
    rewrite (IH _ Hr), Hres.
    destruct (failsb ctx c); simpl; [|done].
    destruct (existsb _ rest); [|done]. by rewrite insert_insert_eq.
Qed.

(** Keys the loop does not visit keep their entry. *)
Lemma range_checkers_untouched order st st' name :
  range_checkers ctx order st = Some st' →
  name ∉ order.*1 →
  checkResults st' !! name = checkResults st !! name.
Proof.
  revert st. induction order as [|[k c] rest IH]; intros st; simpl.
  - by intros [= <-].
  - destruct (loop_body ctx k c st) as [st1|] eqn:Hb; [|done].
    intros Hr Hnot. apply not_elem_of_cons in Hnot as [Hne Hnot].
    apply loop_body_inv in Hb as (e & _ & _ & Hcr & _).
    rewrite (IH _ Hr Hnot), Hcr. by rewrite lookup_insert_ne.
Qed.

(** A visited key holds the entry made from its checker's answer. *)
Lemma range_checkers_entry order st st' name c :
  range_checkers ctx order st = Some st' →
  NoDup order.*1 →
  (name, c) ∈ order →
  ∃ e, CheckerCheck c ctx = Returns e
       ∧ checkResults st' !! name = Some (check_entry e).
Proof.
  revert st. induction order as [|[k c0] rest IH]; intros st; simpl.
  - intros _ _ Hin. by apply elem_of_nil in Hin.
  - destruct (loop_body ctx k c0 st) as [st1|] eqn:Hb; [|done].
    intros Hr Hnd Hin. apply NoDup_cons in Hnd as [Hk Hnd].
    apply elem_of_cons in Hin as [[= -> ->]|Hin].
    + apply loop_body_inv in Hb as (e & He & _ & Hcr & _).
      exists e. split; [done|].
      rewrite (range_checkers_untouched _ _ _ _ Hr Hk), Hcr.
      by rewrite lookup_insert_eq.
    + by apply (IH st1).
Qed.

(** Every visited checker is invoked once, in the order of the visit. *)
Lemma range_checkers_invoked order st st' :
  range_checkers ctx order st = Some st' →
  invoked st' = reverse order ++ invoked st.
Proof.
  revert st. induction order as [|[k c] rest IH]; intros st; simpl.
  - by intros [= <-].
  - destruct (loop_body ctx k c st) as [st1|] eqn:Hb; [|done].
    intros Hr. apply loop_body_inv in Hb as (e & _ & _ & _ & Hinv).
    rewrite (IH _ Hr), Hinv, reverse_cons, <- app_assoc. done.
Qed.

(** The keys of [checkResults] after the loop. *)
Lemma range_checkers_dom order st st' :
  range_checkers ctx order st = Some st' →
  dom (checkResults st') = list_to_set order.*1 ∪ dom (checkResults st).
Proof.
  revert st. induction order as [|[k c] rest IH]; intros st; simpl.
  - intros [= <-]. set_solver.
  - destruct (loop_body ctx k c st) as [st1|] eqn:Hb; [|done].
    intros Hr. apply loop_body_inv in Hb as (e & _ & _ & Hcr & _).
    rewrite (IH _ Hr), Hcr, dom_insert_L. set_solver.
Qed.

End RangeLoop.

(** * HealthService.Check *)

Lemma any_fails_true ctx h :
  any_fails ctx h = true ↔ ∃ name c, checkers h !! name = Some c ∧ fails ctx c.
Proof.
  unfold any_fails. rewrite existsb_exists. split.
  - intros [[name c] [Hin Hf]]. apply list_elem_of_In, elem_of_map_to_list in Hin.
    by exists name, c.
  - intros (name & c & Hl & Hf). exists (name, c). split; [|done].
    by apply list_elem_of_In, elem_of_map_to_list.
Qed.

Lemma any_fails_false ctx h :
  any_fails ctx h = false ↔
  ∀ name c, checkers h !! name = Some c → ¬ fails ctx c.
Proof.
  rewrite <- not_true_iff_false, any_fails_true. split.
  - intros Hno name c Hl Hf. apply Hno. eauto.
  - intros Hall (name & c & Hl & Hf). by apply (Hall name c).
Qed.

Lemma all_respond_Forall ctx h :
  map_Forall (λ _ c, responds ctx c) (checkers h) ↔
  Forall (λ kc, responds ctx kc.2) (map_to_list (checkers h)).
Proof.
  rewrite map_Forall_to_list, !Forall_forall.
  split; intros H [k c]; apply (H (k, c)).
Qed.

(** [Check] returns exactly when every registered checker answers. *)
Lemma Check_run_is_Some now h ctx :
  is_Some (Check_run now h ctx) ↔ map_Forall (λ _ c, responds ctx c) (checkers h).
Proof.
  rewrite all_respond_Forall, <- (range_checkers_is_Some ctx _ (loop_start now h)).
  unfold Check_run, Check_in_order, loop_start.
  destruct (range_checkers _ _ _); split; intros [? ?]; eauto; done.
Qed.

(** What a returning [Check] has computed. *)
Lemma Check_run_inv now h ctx run :
  Check_run now h ctx = Some run →
  result run = <["checks" := VMap (checkResults run)]>
                 (if any_fails ctx h
                  then <["status" := VString "unhealthy"]> (initial_result now h)
                  else initial_result now h)
  ∧ dom (checkResults run) = dom (checkers h)
  ∧ (∀ name c, checkers h !! name = Some c →
       ∃ e, CheckerCheck c ctx = Returns e
            ∧ checkResults run !! name = Some (check_entry e))
  ∧ invoked run = reverse (map_to_list (checkers h)).
Proof.
  unfold Check_run, Check_in_order.
  destruct (range_checkers _ _ _) as [st|] eqn:Hr; [|done].
  intros [= <-]. simpl. split_and!.
  - by rewrite (range_checkers_result _ _ _ _ Hr).
  - rewrite (range_checkers_dom _ _ _ _ Hr). simpl.
    rewrite dom_empty_L, union_empty_r_L. apply set_eq. intros k.
    rewrite elem_of_list_to_set, elem_of_dom, list_elem_of_fmap. split.
    + intros [[k' c] [-> Hin]]. apply elem_of_map_to_list in Hin. eauto.
    + intros [c Hc]. exists (k, c). split; [done|]. by apply elem_of_map_to_list.
  - intros name c Hl.
    apply (range_checkers_entry _ _ _ _ name c Hr).
    + apply NoDup_fst_map_to_list.
    + by apply elem_of_map_to_list.
  - rewrite (range_checkers_invoked _ _ _ _ Hr). simpl. by rewrite app_nil_r.
Qed.

(** The order in which the runtime visits the map does not show in the
    report. *)
Lemma Check_in_order_perm now h ctx order run :
  order ≡ₚ map_to_list (checkers h) →
  Check_in_order now h ctx order = Some run →
  ∃ run', Check_run now h ctx = Some run'
          ∧ result run' = result run
          ∧ checkResults run' = checkResults run
          ∧ invoked run' ≡ₚ invoked run.
Proof.
  intros Hp. unfold Check_in_order.
  destruct (range_checkers ctx order _) as [st|] eqn:Hr; [|done].
  intros [= <-]. simpl.
  assert (Hnd : NoDup order.*1).
  { rewrite Hp. apply NoDup_fst_map_to_list. }
  assert (Hsome : is_Some (Check_run now h ctx)).
  { apply Check_run_is_Some, all_respond_Forall. rewrite <- Hp.
    apply (range_checkers_is_Some ctx order (loop_start now h)).
    unfold loop_start. rewrite Hr. eauto. }
  destruct Hsome as [run' Hrun']. exists run'. split; [done|].
  destruct (Check_run_inv _ _ _ _ Hrun') as (Hres & Hdom & Hent & Hinv).
  assert (Hcr : checkResults run' = checkResults st).
  { apply map_eq. intros k.
    destruct (checkers h !! k) as [c|] eqn:Hk.
    - destruct (Hent k c Hk) as (e & He & ->).
      assert (Hin : (k, c) ∈ order).
      { rewrite Hp. by apply elem_of_map_to_list. }
      destruct (range_checkers_entry _ _ _ _ k c Hr Hnd Hin) as (e' & He' & ->).
      congruence.
    - assert (Hk' : k ∉ order.*1).
      { rewrite Hp. intros Hin. apply list_elem_of_fmap in Hin as [[k' c] [-> Hin]].
        apply elem_of_map_to_list in Hin. simpl in Hk. congruence. }
      rewrite (range_checkers_untouched _ _ _ _ k Hr Hk'). simpl.
      rewrite lookup_empty. apply not_elem_of_dom. rewrite Hdom.
      by apply not_elem_of_dom. }
  split_and!.
  - rewrite Hres, Hcr, (range_checkers_result _ _ _ _ Hr). simpl.
    unfold any_fails.
    replace (existsb (λ kc, failsb ctx kc.2) (map_to_list (checkers h)))
      with (existsb (λ kc : string * HealthChecker, failsb ctx kc.2) order); [done|].
    apply eq_true_iff_eq. rewrite !existsb_exists.
    split; intros [x [Hin Hx]]; exists x; split; try done;
      apply list_elem_of_In; apply list_elem_of_In in Hin;
      [by rewrite <- Hp | by rewrite Hp].
  - done.
  - rewrite Hinv, (range_checkers_invoked _ _ _ _ Hr). simpl.
    rewrite app_nil_r, !reverse_Permutation. by symmetry.
Qed.

Lemma initial_result_status now h :
  initial_result now h !! "status" = Some (VString "healthy").
Proof. unfold initial_result. rewrite !lookup_insert_ne by done; by rewrite lookup_insert_eq. Qed.

Lemma initial_result_dom now h :
  dom (initial_result now h)
  = {[ "status"; "timestamp"; "ready"; "shutting_down" ]}.
Proof.
  unfold initial_result. rewrite !dom_insert_L, dom_empty_L. set_solver.
Qed.

Lemma example_registry_responds ctx :
  map_Forall (λ _ c, responds ctx c) (checkers example_registry).
Proof.
  unfold example_registry. simpl.
  apply map_Forall_insert_2; [done|].
  apply map_Forall_insert_2; [done|]. apply map_Forall_empty.
Qed.

(** C3. Whenever the registered checkers answer, [Check] returns a report
    whose status is "unhealthy" if at least one checker returned an error
    and "healthy" if none did; in particular with no checker registered. *)
Theorem Check_status now h ctx :
  map_Forall (λ _ c, responds ctx c) (checkers h) →
  ∃ report, Check now h ctx = Some report
    ∧ ((∃ name c, checkers h !! name = Some c ∧ fails ctx c) →
         report !! "status" = Some (VString "unhealthy"))
    ∧ ((∀ name c, checkers h !! name = Some c → ¬ fails ctx c) →
         report !! "status" = Some (VString "healthy"))
    ∧ (checkers h = ∅ → report !! "status" = Some (VString "healthy")).
Proof.
  intros Hall. apply (Check_run_is_Some now) in Hall as [run Hrun].
  exists (result run). unfold Check. rewrite Hrun. split; [done|].
  destruct (Check_run_inv _ _ _ _ Hrun) as (Hres & _).
  assert (Hfail : any_fails ctx h = true →
                  result run !! "status" = Some (VString "unhealthy")).
  { intros Hf. rewrite Hres, Hf. rewrite lookup_insert_ne by done; by rewrite lookup_insert_eq. }
  assert (Hok : any_fails ctx h = false →
                result run !! "status" = Some (VString "healthy")).
  { intros Hf. rewrite Hres, Hf. rewrite lookup_insert_ne by done.
    apply initial_result_status. }
  split_and!.
  - intros Hex. by apply Hfail, any_fails_true.
  - intros Hno. by apply Hok, any_fails_false.
  - intros Hempty. apply Hok, any_fails_false. intros name c.
    rewrite Hempty, lookup_empty. done.
Qed.

Lemma Check_status_witness :
  ∃ report, Check "2024-05-01T10:00:00Z" example_registry Background = Some report
    ∧ ((∃ name c, checkers example_registry !! name = Some c
                  ∧ fails Background c) →
         report !! "status" = Some (VString "unhealthy"))
    ∧ ((∀ name c, checkers example_registry !! name = Some c
                  → ¬ fails Background c) →
         report !! "status" = Some (VString "healthy"))
    ∧ (checkers example_registry = ∅ →
         report !! "status" = Some (VString "healthy")).
Proof. apply Check_status, example_registry_responds. Defined.

(** C7. A report has exactly the keys status, timestamp, ready,
    shutting_down and checks; checks has one entry per registered name,
    whose status is "healthy" or "unhealthy" and which has an error key
    exactly when that checker returned an error. *)
Theorem Check_report_shape now h ctx :
  map_Forall (λ _ c, responds ctx c) (checkers h) →
  ∃ report checks, Check now h ctx = Some report
    ∧ dom report = report_keys
    ∧ (report !! "status" = Some (VString "healthy")
       ∨ report !! "status" = Some (VString "unhealthy"))
    ∧ report !! "timestamp" = Some (VString now)
    ∧ report !! "ready" = Some (VBool (ready h))
    ∧ report !! "shutting_down" = Some (VBool (shuttingDown h))
    ∧ report !! "checks" = Some (VMap checks)
    ∧ dom checks = dom (checkers h)
    ∧ ∀ name c, checkers h !! name = Some c →
        ∃ e entry, CheckerCheck c ctx = Returns e
          ∧ checks !! name = Some (VMap entry)
          ∧ entry !! "status"
            = Some (VString (match e with
                             | Some _ => "unhealthy"
                             | None => "healthy"
                             end))
          ∧ entry !! "error" = VString <$> e
          ∧ dom entry = (match e with
                         | Some _ => {[ "status"; "error" ]}
                         | None => {[ "status" ]}
                         end : gset string).
Proof.
  intros Hall. apply (Check_run_is_Some now) in Hall as [run Hrun].
  exists (result run), (checkResults run). unfold Check. rewrite Hrun.
  split; [done|].
  destruct (Check_run_inv _ _ _ _ Hrun) as (Hres & Hdom & Hent & _).
  rewrite Hres. split_and!.
  - rewrite dom_insert_L.
    destruct (any_fails ctx h); rewrite ?dom_insert_L, initial_result_dom;
      unfold report_keys; set_solver.
  - rewrite lookup_insert_ne by done. destruct (any_fails ctx h).
    + right. by rewrite lookup_insert_eq.
    + left. apply initial_result_status.
  - rewrite lookup_insert_ne by done.
    destruct (any_fails ctx h); rewrite ?lookup_insert_ne by done;
      unfold initial_result; rewrite !lookup_insert_ne by done; by rewrite lookup_insert_eq.
  - rewrite lookup_insert_ne by done.
    destruct (any_fails ctx h); rewrite ?lookup_insert_ne by done;
      unfold initial_result; rewrite !lookup_insert_ne by done; by rewrite lookup_insert_eq.
  - rewrite lookup_insert_ne by done.
    destruct (any_fails ctx h); rewrite ?lookup_insert_ne by done;
      unfold initial_result; by rewrite lookup_insert_eq.
  - by rewrite lookup_insert_eq.
  - done.
  - intros name c Hl. destruct (Hent name c Hl) as (e & He & Hentry).
    exists e. destruct e as [msg|]; simpl in Hentry.
    + eexists. split_and!; [done|exact Hentry|..].
      * by rewrite lookup_insert_eq.
      * rewrite lookup_insert_ne by done; by rewrite lookup_insert_eq.
      * rewrite !dom_insert_L, dom_empty_L. set_solver.
    + eexists. split_and!; [done|exact Hentry|..].
      * by rewrite lookup_insert_eq.
      * rewrite lookup_insert_ne by done; by rewrite lookup_empty.
      * rewrite !dom_insert_L, dom_empty_L. set_solver.
Qed.

Lemma Check_report_shape_witness :
  ∃ report checks,
    Check "2024-05-01T10:00:00Z" example_registry Background = Some report
    ∧ dom report = report_keys
    ∧ (report !! "status" = Some (VString "healthy")
       ∨ report !! "status" = Some (VString "unhealthy"))
    ∧ report !! "timestamp" = Some (VString "2024-05-01T10:00:00Z")
    ∧ report !! "ready" = Some (VBool (ready example_registry))
    ∧ report !! "shutting_down" = Some (VBool (shuttingDown example_registry))
    ∧ report !! "checks" = Some (VMap checks)
    ∧ dom checks = dom (checkers example_registry)
    ∧ ∀ name c, checkers example_registry !! name = Some c →
        ∃ e entry, CheckerCheck c Background = Returns e
          ∧ checks !! name = Some (VMap entry)
          ∧ entry !! "status"
            = Some (VString (match e with
                             | Some _ => "unhealthy"
                             | None => "healthy"
                             end))
          ∧ entry !! "error" = VString <$> e
          ∧ dom entry = (match e with
                         | Some _ => {[ "status"; "error" ]}
                         | None => {[ "status" ]}
                         end : gset string).
Proof. apply Check_report_shape, example_registry_responds. Defined.

(** The example of the specification: a certificate checker failing with
    "cert expired". *)
Example Check_cert_expired :
  Check "2024-05-01T10:00:00Z"
        (RegisterChecker NewHealthService
                         (failing_checker "certificate" "cert expired"))
        Background
  = Some (<["status" := VString "unhealthy"]>
         (<["timestamp" := VString "2024-05-01T10:00:00Z"]>
         (<["ready" := VBool false]>
         (<["shutting_down" := VBool false]>
         (<["checks" := VMap (<["certificate" :=
               VMap (<["status" := VString "unhealthy"]>
                    (<["error" := VString "cert expired"]> ∅))]> ∅)]> ∅))))).
Proof. vm_compute. reflexivity. Qed.

(** [Check] looks at its context only through the checkers it calls. *)
Lemma range_checkers_ext ctx ctx' order st :
  Forall (λ kc : string * HealthChecker,
            CheckerCheck kc.2 ctx' = CheckerCheck kc.2 ctx) order →
  range_checkers ctx' order st = range_checkers ctx order st.
Proof.
  intros Hall. revert st.
  induction Hall as [|[name c] rest Hc _ IH]; intros st; simpl; [done|].
  unfold loop_body. simpl in Hc. rewrite Hc.
  destruct (CheckerCheck c ctx) as [[e|]|]; auto.
Qed.

(** C2, as the code has it. [Check] has no timeout of its own: it hands
    its context to the checkers, calls them one after the other and waits
    for each. It returns exactly when every registered checker answers; the
    entry of a checker then records the answer of that checker and nothing
    else; and the deadline of the context has no effect except through the
    checkers' own answers. *)
Theorem Check_waits_for_every_checker now h ctx :
  (is_Some (Check now h ctx)
   ↔ map_Forall (λ _ c, responds ctx c) (checkers h))
  ∧ (∀ report, Check now h ctx = Some report →
       ∃ checks, report !! "checks" = Some (VMap checks)
         ∧ ∀ name c, checkers h !! name = Some c →
             ∃ e, CheckerCheck c ctx = Returns e
                  ∧ checks !! name = Some (check_entry e))
  ∧ (∀ ctx', (∀ name c, checkers h !! name = Some c →
                CheckerCheck c ctx' = CheckerCheck c ctx) →
             Check now h ctx' = Check now h ctx).
Proof.
  split_and!.
  - unfold Check. rewrite fmap_is_Some. apply Check_run_is_Some.
  - unfold Check. intros report Hrep.
    apply fmap_Some in Hrep as (run & Hrun & ->).
    destruct (Check_run_inv _ _ _ _ Hrun) as (Hres & _ & Hent & _).
    exists (checkResults run). split; [|done].
    rewrite Hres. by rewrite lookup_insert_eq.
  - intros ctx' Hsame. unfold Check, Check_run, Check_in_order.
    rewrite (range_checkers_ext ctx ctx'); [done|].
    apply Forall_forall. intros [name c] Hin. simpl.
    apply elem_of_map_to_list in Hin. eauto.
Qed.

Lemma Check_waits_for_every_checker_witness :
  is_Some (Check "2024-05-01T10:00:00Z" example_registry Background).
Proof.
  destruct (Check_waits_for_every_checker "2024-05-01T10:00:00Z"
              example_registry Background) as [[_ Hreturns] _].
  exact (Hreturns (example_registry_responds Background)).
Defined.

(** C2, as stated, fails: with a deadline five seconds away and a
    registered checker that never answers, [Check] never returns, so there
    is no report, with or without a timeout entry. *)
Lemma Check_unresponsive_counterexample :
  Deadline (WithTimeout Background 0 (5 * Server.Second)) = Some 5000000000
  ∧ checkers stuck_registry !! "database" = Some (stuck_checker "database")
  ∧ Check "2024-05-01T10:00:00Z" stuck_registry
          (WithTimeout Background 0 (5 * Server.Second)) = None.
Proof. split_and!; vm_compute; reflexivity. Qed.

Lemma RegisterChecker_keyed h c :
  keyed_by_name h → keyed_by_name (RegisterChecker h c).
Proof. intros Hk. by apply map_Forall_insert_2. Qed.



(** * The handlers of cmd/server *)

Lemma eq_string_true v lit :
  eq_string v lit = true ↔ v = Some (VString lit).
Proof.
  unfold eq_string. destruct v as [[s| |]|]; try (split; [done|congruence]).
  rewrite bool_decide_eq_true. split; congruence.
Qed.

(** C4. The answer of /readyz depends on the two flags only, in this
    precedence: shutting down, then not ready, then ready; the handler
    invokes no checker, and registering checkers does not change it. *)
Theorem readyz_precedence (v : view) :
  (IsShuttingDown (v 0%nat) = true →
     statusCode (response (readyz v)) = 503
     ∧ body (response (readyz v)) = "shutting down")
  ∧ (IsShuttingDown (v 0%nat) = false → IsReady (v 1%nat) = false →
     statusCode (response (readyz v)) = 503
     ∧ body (response (readyz v)) = "not ready")
  ∧ (IsShuttingDown (v 0%nat) = false → IsReady (v 1%nat) = true →
     statusCode (response (readyz v)) = 200
     ∧ body (response (readyz v)) = "ready")
  ∧ probed (readyz v) = []
  ∧ (∀ v' : view,
       shuttingDown (v' 0%nat) = shuttingDown (v 0%nat) →
       ready (v' 1%nat) = ready (v 1%nat) →
       readyz v' = readyz v)
  ∧ (∀ h, response (readyz (λ _, SetShuttingDown h true))
          = {| header := []; statusCode := 503; body := "shutting down" |}).
Proof.
  unfold readyz, IsShuttingDown, IsReady. split_and!.
  - by intros ->.
  - by intros -> ->.
  - by intros -> ->.
  - by destruct (shuttingDown (v 0%nat)), (ready (v 1%nat)).
  - by intros v' -> ->.
  - done.
Qed.

Lemma readyz_precedence_witness :
  statusCode (response (readyz (λ _, SetShuttingDown example_registry true)))
  = 503
  ∧ body (response (readyz (λ _, SetShuttingDown example_registry true)))
    = "shutting down".
Proof.
  destruct (readyz_precedence (λ _, SetShuttingDown example_registry true))
    as (Hsd & _).
  apply Hsd. reflexivity.
Defined.

(** The readiness answers listed among the testable properties. *)
Example readyz_before_SetReady :
  response (readyz (λ _, NewHealthService))
  = {| header := []; statusCode := 503; body := "not ready" |}.
Proof. reflexivity. Qed.

Example readyz_after_SetReady :
  response (readyz (λ _, SetReady NewHealthService true))
  = {| header := []; statusCode := 200; body := "ready" |}.
Proof. reflexivity. Qed.

(** C6. When [Check] returns its report, /healthz answers 503 if the
    report says "unhealthy" or the registry is shutting down, 200
    otherwise, and in both cases the body is the encoded report. *)
Theorem healthz_status (Encode : gmap string value → string) (v : view)
    (now : string) (ctx : Context) :
  map_Forall (λ _ c, responds ctx c) (checkers (v 0%nat)) →
  ∃ report hd,
    Check now (v 0%nat) ctx = Some report
    ∧ healthz Encode v now ctx = Some hd
    ∧ body (response hd) = Encode report
    ∧ header (response hd) = [("Content-Type", "application/json")]
    ∧ (report !! "status" = Some (VString "unhealthy")
       ∨ IsShuttingDown (v 1%nat) = true →
       statusCode (response hd) = 503)
    ∧ (report !! "status" ≠ Some (VString "unhealthy") →
       IsShuttingDown (v 1%nat) = false →
       statusCode (response hd) = 200).
Proof.
  intros Hall. apply (Check_run_is_Some now) in Hall as [run Hrun].
  unfold Check, healthz. rewrite Hrun. simpl.
  eexists _, _. split_and!; try done.
  - intros [Hst|Hsd].
    + apply eq_string_true in Hst. by rewrite Hst.
    + rewrite Hsd, orb_true_r. done.
  - intros Hst Hsd. rewrite Hsd, orb_false_r.
    destruct (eq_string _ _) eqn:He; [|done].
    by apply eq_string_true in He.
Qed.

Lemma healthz_status_witness :
  ∃ report hd,
    Check "2024-05-01T10:00:00Z" example_registry Background = Some report
    ∧ healthz status_only (λ _, example_registry) "2024-05-01T10:00:00Z"
              Background = Some hd
    ∧ body (response hd) = status_only report
    ∧ header (response hd) = [("Content-Type", "application/json")]
    ∧ (report !! "status" = Some (VString "unhealthy")
       ∨ IsShuttingDown example_registry = true →
       statusCode (response hd) = 503)
    ∧ (report !! "status" ≠ Some (VString "unhealthy") →
       IsShuttingDown example_registry = false →
       statusCode (response hd) = 200).
Proof.
  apply (healthz_status status_only (λ _, example_registry)).
  apply example_registry_responds.
Defined.

(** Without an answer from a checker there is no response at all. *)
Lemma healthz_blocks Encode (v : view) now ctx :
  ¬ map_Forall (λ _ c, responds ctx c) (checkers (v 0%nat)) →
  healthz Encode v now ctx = None.
Proof.
  intros Hno. unfold healthz.
  destruct (Check_run now (v 0%nat) ctx) as [run|] eqn:Hrun; [|done].
  destruct Hno. apply (Check_run_is_Some now). rewrite Hrun. eauto.
Qed.

(** * The shutdown sequence of main *)

Section Shutdown.
Context (muLock : Z → option Z).
Context (Shutdown : component → Context → Z → option (Z * option string)).
Context (wgWait : Z → option Z).
Context (t0 : Z) (h : HealthService).

Lemma shutdown_inv_init : shutdown_inv t0 h (init t0 h).
Proof. by unfold shutdown_inv. Qed.

Lemma shutdown_inv_step s s' :
  step muLock Shutdown wgWait s = Some s' →
  shutdown_inv t0 h s → shutdown_inv t0 h s'.
Proof.
  unfold step, shutdown_inv.
  destruct s as [p hs clk sctx tr]; simpl.
  destruct p; simpl.
  - intros [= <-] (-> & -> & -> & ->); simpl. done.
  - intros [= <-] (-> & -> & -> & ->); simpl. done.
  - intros Hs (-> & -> & ->).
    destruct (muLock clk) as [t|]; [|done].
    simpl in Hs. injection Hs as <-. simpl. done.
  - intros Hs (-> & -> & ->).
    destruct (muLock clk) as [t|]; [|done].
    simpl in Hs. injection Hs as <-. simpl. done.
  - intros Hs (-> & -> & ->); simpl in Hs. injection Hs as <-. simpl. done.
  - intros Hs (-> & -> & ->); simpl in Hs.
    destruct (Shutdown HTTPServer _ clk) as [[t err]|]; [|done].
    simpl in Hs. injection Hs as <-.
    destruct err as [e|]; simpl; (split_and!; [done..|]);
      eexists _, _; reflexivity.
  - intros Hs (-> & -> & tw & rest & ->); simpl in Hs. injection Hs as <-.
    simpl. split_and!; [done..|]. eexists _, _. reflexivity.
  - intros Hs (-> & -> & tw & rest & ->); simpl in Hs.
    destruct (Shutdown TunnelServer _ clk) as [[t err]|]; [|done].
    simpl in Hs. injection Hs as <-.
    destruct err as [e|]; simpl; (split_and!; [done..|]);
      eexists _, _; reflexivity.
  - intros Hs (-> & -> & tw & rest & ->).
    destruct (wgWait clk) as [t|]; [|done].
    simpl in Hs. injection Hs as <-. simpl.
    split_and!; [done..|]. eexists _, _. reflexivity.
  - intros [= <-] (-> & -> & tw & rest & ->); simpl.
    split_and!; [done..|]. eexists _, _. reflexivity.
  - done.
Qed.

Lemma shutdown_inv_steps n s :
  shutdown_inv t0 h s →
  shutdown_inv t0 h (steps muLock Shutdown wgWait n s).
Proof.
  revert s. induction n as [|n IH]; intros s Hinv; simpl; [done|].
  destruct (step muLock Shutdown wgWait s) as [s'|] eqn:Hs; [|done].
  eapply IH, shutdown_inv_step; eauto.
Qed.

Lemma reachable_inv s :
  reachable muLock Shutdown wgWait t0 h s → shutdown_inv t0 h s.
Proof. intros [n <-]. apply shutdown_inv_steps, shutdown_inv_init. Qed.

Lemma returns_inv_step s s' :
  step muLock Shutdown wgWait s = Some s' →
  returns_inv muLock Shutdown wgWait t0 s →
  returns_inv muLock Shutdown wgWait t0 s'.
Proof.
  unfold step, returns_inv.
  destruct s as [p hs clk sctx tr]; simpl.
  destruct p; simpl.
  - by intros [= <-] ->.
  - by intros [= <-] ->.
  - intros Hs [-> ->].
    destruct (muLock t0) as [t|] eqn:Ha; [|done].
    simpl in Hs. by injection Hs as <-.
  - intros Hs [-> Ha].
    destruct (muLock clk) as [t|] eqn:Hb; [|done].
    simpl in Hs. injection Hs as <-. simpl. eauto.
  - intros Hs [-> Hab]; simpl in Hs. by injection Hs as <-.
  - intros Hs [-> (ta & Ha & Hb)]; simpl in Hs.
    destruct (Shutdown HTTPServer _ clk) as [[t err]|] eqn:H1; [|done].
    simpl in Hs. injection Hs as <-.
    destruct err; simpl; eauto 8.
  - intros Hs [-> He]; simpl in Hs. by injection Hs as <-.
  - intros Hs [-> (ta & tb & e1 & Ha & Hb & H1)]; simpl in Hs.
    destruct (Shutdown TunnelServer _ clk) as [[t err]|] eqn:H2; [|done].
    simpl in Hs. injection Hs as <-.
    destruct err; simpl; eauto 10.
  - intros Hs (ta & tb & t1 & e1 & e2 & Ha & Hb & H1 & H2).
    destruct (wgWait clk) as [t|] eqn:H3; [|done].
    simpl in Hs. injection Hs as <-. simpl. eauto 12.
  - by intros [= <-] ?.
  - done.
Qed.

Lemma returns_inv_steps n s :
  returns_inv muLock Shutdown wgWait t0 s →
  returns_inv muLock Shutdown wgWait t0 (steps muLock Shutdown wgWait n s).
Proof.
  revert s. induction n as [|n IH]; intros s Hinv; simpl; [done|].
  destruct (step muLock Shutdown wgWait s) as [s'|] eqn:Hs; [|done].
  eapply IH, returns_inv_step; eauto.
Qed.

(** The whole run when nothing blocks. *)
Lemma steps_to_the_end ta tb t1 e1 t2 e2 t3 :
  muLock t0 = Some ta → muLock ta = Some tb →
  Shutdown HTTPServer (shutdown_context t0) tb = Some (t1, e1) →
  Shutdown TunnelServer (shutdown_context t0) t1 = Some (t2, e2) →
  wgWait t2 = Some t3 →
  steps muLock Shutdown wgWait 10 (init t0 h)
  = {| at_pc := Returned; health := drained h; clock := t3;
       shutdownCtx := Some (shutdown_context t0);
       trace := flag_prefix
         ++ [EvShutdownCall HTTPServer (shutdown_context t0) tb;
             EvShutdownReturn HTTPServer t1 e1]
         ++ error_log "HTTP server shutdown error" e1
         ++ [EvShutdownCall TunnelServer (shutdown_context t0) t1;
             EvShutdownReturn TunnelServer t2 e2]
         ++ error_log "Tunnel server shutdown error" e2
         ++ [EvWaitReturn t3; completed_log] |}.
Proof.
  intros Ha Hb H1 H2 H3.
  unfold steps, step, init, goto, emit, set_ctx, set_health, set_clock; simpl.
  rewrite Ha; simpl. rewrite Hb; simpl.
  fold (shutdown_context t0). rewrite H1; simpl.
  destruct e1 as [m1|]; simpl; rewrite H2; simpl;
    destruct e2 as [m2|]; simpl; rewrite H3; simpl; reflexivity.
Qed.

End Shutdown.

Lemma steps_stuck muLock Shutdown wgWait n s :
  step muLock Shutdown wgWait s = None →
  steps muLock Shutdown wgWait n s = s.
Proof. intros Hs. destruct n; simpl; [done|]. by rewrite Hs. Qed.

(** C1. [main] writes shuttingDown and then ready, each under the lock,
    and only then calls the first [Shutdown]: in every state a probe can
    find, a teardown call in the trace comes after both writes, in that
    order. Once both writes are done, which is when draining has started,
    the registry is shutting down and not ready, through teardown and after
    it: no state has draining started, teardown not completed and the
    ready flag true. Already after the first write /readyz answers 503
    "shutting down"; until the second the ready flag keeps its value. *)
Theorem flags_written_before_teardown muLock Shutdown wgWait t0 h s :
  reachable muLock Shutdown wgWait t0 h s →
  (∀ i c ctx t, trace s !! i = Some (EvShutdownCall c ctx t) →
     (2 < i)%nat
     ∧ trace s !! 1%nat = Some (EvSetShuttingDown true)
     ∧ trace s !! 2%nat = Some (EvSetReady false))
  ∧ (teardown_begun s = true → draining_started s = true)
  ∧ (draining_started s = true →
     IsShuttingDown (health s) = true ∧ IsReady (health s) = false)
  ∧ ¬ (draining_started s = true ∧ teardown_completed s = false
       ∧ IsReady (health s) = true)
  ∧ (teardown_begun s = true →
     IsShuttingDown (health s) = true ∧ IsReady (health s) = false)
  ∧ (shutting_down_written s = true →
     IsShuttingDown (health s) = true
     ∧ response (readyz (λ _, health s))
       = {| header := []; statusCode := 503; body := "shutting down" |})
  ∧ (at_pc s = MarkNotReady → IsReady (health s) = IsReady h).
Proof.
  intros Hinv%reachable_inv. unfold shutdown_inv in Hinv.
  unfold teardown_begun, draining_started, teardown_completed,
    shutting_down_written, readyz.
  destruct s as [p hs clk sctx tr]; simpl in *.
  destruct p; simpl in *;
    repeat match goal with
           | H : _ ∧ _ |- _ => destruct H as [? ?]
           | H : ∃ _, _ |- _ => destruct H as [? ?]
           end; subst; simpl;
    (split_and!; try done; try (by intros (? & ? & ?));
     intros i c ctx t Hi;
     do 3 (destruct i as [|i]; [by simplify_eq/=|]);
     simpl in Hi; first [done | split_and!; [lia|done|done]]).
Qed.

Lemma flags_written_before_teardown_witness :
  reachable free_lock prompt no_wait 0 ready_registry
            (steps free_lock prompt no_wait 6 (init 0 ready_registry))
  ∧ draining_started (steps free_lock prompt no_wait 6 (init 0 ready_registry))
    = true
  ∧ teardown_completed
      (steps free_lock prompt no_wait 6 (init 0 ready_registry)) = false
  ∧ IsReady (health (steps free_lock prompt no_wait 6 (init 0 ready_registry)))
    = false.
Proof.
  assert (Hr : reachable free_lock prompt no_wait 0 ready_registry
                 (steps free_lock prompt no_wait 6 (init 0 ready_registry)))
    by (exists 6%nat; reflexivity).
  split; [exact Hr|]. split; [reflexivity|]. split; [reflexivity|].
  destruct (flags_written_before_teardown free_lock prompt no_wait 0
              ready_registry _ Hr) as (_ & _ & Hdrain & _).
  by destruct (Hdrain eq_refl).
Defined.

(** C5, as the code has it. Once both flag writes have been granted the
    lock, the two components are shut down one after the other with the
    same context: when the HTTP server's [Shutdown] returns at [t1] and
    the tunnel server's at [t2], the tunnel server's teardown started at
    [t1]; each is called whatever the other returned; an error is logged
    and nothing else is recorded; [main] returns when [wg.Wait()] has
    returned. *)
Theorem shutdown_sequential muLock Shutdown wgWait t0 h ta tb t1 e1 t2 e2 t3 :
  muLock t0 = Some ta →
  muLock ta = Some tb →
  Shutdown HTTPServer (shutdown_context t0) tb = Some (t1, e1) →
  Shutdown TunnelServer (shutdown_context t0) t1 = Some (t2, e2) →
  wgWait t2 = Some t3 →
  at_pc (steps muLock Shutdown wgWait 10 (init t0 h)) = Returned
  ∧ clock (steps muLock Shutdown wgWait 10 (init t0 h)) = t3
  ∧ health (steps muLock Shutdown wgWait 10 (init t0 h)) = drained h
  ∧ trace (steps muLock Shutdown wgWait 10 (init t0 h))
    = flag_prefix
      ++ [EvShutdownCall HTTPServer (shutdown_context t0) tb;
          EvShutdownReturn HTTPServer t1 e1]
      ++ error_log "HTTP server shutdown error" e1
      ++ [EvShutdownCall TunnelServer (shutdown_context t0) t1;
          EvShutdownReturn TunnelServer t2 e2]
      ++ error_log "Tunnel server shutdown error" e2
      ++ [EvWaitReturn t3; completed_log]
  ∧ teardown_start HTTPServer
      (trace (steps muLock Shutdown wgWait 10 (init t0 h))) = Some tb
  ∧ teardown_start TunnelServer
      (trace (steps muLock Shutdown wgWait 10 (init t0 h))) = Some t1.
Proof.
  intros Ha Hb H1 H2 H3.
  rewrite (steps_to_the_end muLock Shutdown wgWait t0 h ta tb t1 e1 t2 e2 t3)
    by done.
  simpl. split_and!; try done.
  destruct e1; reflexivity.
Qed.

Lemma shutdown_sequential_witness :
  teardown_start TunnelServer
    (trace (steps free_lock slow_http no_wait 10 (init 0 ready_registry)))
  = Some (30 * Second).
Proof.
  apply (shutdown_sequential free_lock slow_http no_wait 0 ready_registry
           0 0 (30 * Second) (Some "context deadline exceeded")
           (30 * Second) None (30 * Second)); reflexivity.
Defined.

(** A flag write that is never granted the lock keeps [main] from
    shutting anything down: no [Shutdown] is ever called. *)
Lemma lock_wait_blocks_teardown muLock Shutdown wgWait t0 h n :
  (muLock t0 = None ∨ ∃ ta, muLock t0 = Some ta ∧ muLock ta = None) →
  teardown_begun (steps muLock Shutdown wgWait n (init t0 h)) = false
  ∧ draining_started (steps muLock Shutdown wgWait n (init t0 h)) = false.
Proof.
  intros Hblocked.
  pose proof (returns_inv_steps muLock Shutdown wgWait t0 n (init t0 h)
                eq_refl) as Hinv.
  unfold returns_inv, teardown_begun, draining_started in *.
  destruct (at_pc (steps muLock Shutdown wgWait n (init t0 h))); try done;
    exfalso;
    repeat match goal with
           | H : _ ∧ _ |- _ => destruct H as [? ?]
           | H : ∃ _, _ |- _ => destruct H as [? ?]
           end;
    destruct Hblocked as [Hn|(ta' & Ha' & Hn)]; congruence.
Qed.

(** Behind a [Check] that never releases the read lock, [main] stays in
    its first flag write for ever. *)
Example main_waits_for_the_lock n :
  teardown_begun (steps held_lock prompt no_wait n (init 0 ready_registry))
  = false
  ∧ draining_started (steps held_lock prompt no_wait n (init 0 ready_registry))
    = false.
Proof. apply lock_wait_blocks_teardown. by left. Qed.

(** A [Shutdown] of the HTTP server that does not return keeps the tunnel
    server from being shut down at all, and [main] from returning. *)
Lemma http_shutdown_blocks_tunnel muLock Shutdown wgWait t0 h n :
  (∀ t, Shutdown HTTPServer (shutdown_context t0) t = None) →
  teardown_start TunnelServer
    (trace (steps muLock Shutdown wgWait n (init t0 h))) = None
  ∧ teardown_completed (steps muLock Shutdown wgWait n (init t0 h)) = false.
Proof.
  intros Hblock.
  pose proof (returns_inv_steps muLock Shutdown wgWait t0 n (init t0 h)
                eq_refl) as Hret.
  pose proof (shutdown_inv_steps muLock Shutdown wgWait t0 h n (init t0 h)
                (shutdown_inv_init t0 h)) as Hinv.
  unfold returns_inv, shutdown_inv, teardown_completed in *.
  destruct (steps muLock Shutdown wgWait n (init t0 h)) as [p hs clk sctx tr].
  simpl in *.
  destruct p;
    repeat match goal with
           | H : _ ∧ _ |- _ => destruct H as [? ?]
           | H : ∃ _, _ |- _ => destruct H as [? ?]
           end; subst; try done;
    match goal with
    | H : Shutdown HTTPServer _ _ = Some _ |- _ => by rewrite Hblock in H
    end.
Qed.

(** C5, as stated, fails: with the same tunnel server, which shuts down at
    once, its teardown starts at time 0 after a prompt HTTP server but only
    at the 30-second deadline after an HTTP server that times out; and a
    run in which both complete leaves no record of either outcome. *)
Lemma teardown_delayed_counterexample :
  teardown_start TunnelServer
    (trace (steps free_lock prompt no_wait 10 (init 0 ready_registry)))
  = Some 0
  ∧ teardown_start TunnelServer
      (trace (steps free_lock slow_http no_wait 10 (init 0 ready_registry)))
    = Some 30000000000
  ∧ Deadline (shutdown_context 0) = Some 30000000000
  ∧ trace (steps free_lock prompt no_wait 10 (init 0 ready_registry))
    = [signal_log; EvSetShuttingDown true; EvSetReady false;
       EvShutdownCall HTTPServer (shutdown_context 0) 0;
       EvShutdownReturn HTTPServer 0 None;
       EvShutdownCall TunnelServer (shutdown_context 0) 0;
       EvShutdownReturn TunnelServer 0 None;
       EvWaitReturn 0; completed_log].
Proof. split_and!; reflexivity. Qed.

(** * Logger.WithFields *)

Section Logger.
Import Logging.
Context (Marshal : LogEntry → option string).
Context (MarshalIndent : LogEntry → string → string → option string).
Context (FormatTime : Z → string → string).

(** A call through a logger depends on the record the pointer leads to,
    not on the pointer. *)
Lemma log_same_record now w l1 l2 ctx lvl msg fields :
  loggers w !! l1 = loggers w !! l2 →
  Logging.log Marshal MarshalIndent FormatTime now w l1 ctx lvl msg fields
  = Logging.log Marshal MarshalIndent FormatTime now w l2 ctx lvl msg fields.
Proof. intros Heq. unfold Logging.log. by rewrite Heq. Qed.

(** Logging allocates no logger and changes none. *)
Lemma log_keeps_loggers now w l ctx lvl msg fields w' :
  Logging.log Marshal MarshalIndent FormatTime now w l ctx lvl msg fields
  = Done w' →
  loggers w' = loggers w.
Proof.
  unfold Logging.log.
  destruct (loggers w !! l) as [L|]; [|done].
  destruct (lvl <? level L); [by intros [= <-]|].
  destruct (string_of_ctx ctx "trace_id" ""); [|done].
  destruct (string_of_ctx ctx "span_id" ""); [|done].
  destruct (formatters w !! formatter L) as [f|]; [|done].
  destruct (Format _ _ _ _ _ _) as [f' [bytes|]]; by intros [= <-].
Qed.

(** The operations only add loggers. *)
Lemma run_op_keeps_loggers w o w' :
  run_op Marshal MarshalIndent FormatTime w o = Some w' →
  loggers w ⊆ loggers w'.
Proof.
  destruct o as [service env lvl|l fields|now l ctx lvl msg fields]; simpl.
  - intros [= <-]. simpl. apply insert_subseteq, not_elem_of_dom, is_fresh.
  - unfold WithFields. destruct (loggers w !! l) as [L|]; [|done].
    intros [= <-]. simpl. apply insert_subseteq, not_elem_of_dom, is_fresh.
  - destruct (Logging.log _ _ _ _ _ _ _ _ _ _) as [w1| |] eqn:Hlog; try done.
    intros [= <-]. by rewrite (log_keeps_loggers _ _ _ _ _ _ _ _ Hlog).
Qed.

Lemma run_ops_keeps_loggers w ops w' :
  run_ops Marshal MarshalIndent FormatTime w ops = Some w' →
  loggers w ⊆ loggers w'.
Proof.
  revert w. induction ops as [|o ops IH]; intros w; simpl.
  - by intros [= <-].
  - destruct (run_op _ _ _ w o) as [w1|] eqn:Ho; [|done].
    intros Hrest. etrans; [by eapply run_op_keeps_loggers|by apply IH].
Qed.

(** C10. [WithFields] allocates a new logger with the level, service name,
    environment, formatter and output of its receiver, whatever fields it
    is given; the receiver, the formatters and the files are untouched; and
    from then on, in every world that still has the two loggers, so after
    any further loggers made or derived and any lines logged, a log call
    through the new logger does exactly what the same call through the
    receiver does, writing the same bytes to the same file. *)
Theorem WithFields_same_output w l L fields :
  loggers w !! l = Some L →
  ∃ w' l' L',
    WithFields w l fields = Some (w', l')
    ∧ l' ≠ l
    ∧ loggers w !! l' = None
    ∧ loggers w' !! l' = Some L'
    ∧ level L' = level L
    ∧ serviceName L' = serviceName L
    ∧ environment L' = environment L
    ∧ formatter L' = formatter L
    ∧ output L' = output L
    ∧ loggers w' !! l = Some L
    ∧ formatters w' = formatters w
    ∧ files w' = files w
    ∧ (∀ fields', WithFields w l fields' = WithFields w l fields)
    ∧ (∀ u now ctx lvl msg fs,
         loggers w' ⊆ loggers u →
         Logging.log Marshal MarshalIndent FormatTime now u l' ctx lvl msg fs
         = Logging.log Marshal MarshalIndent FormatTime now u l ctx lvl msg fs
         ∧ Logging.Fatal Marshal MarshalIndent FormatTime now u l' ctx msg fs
           = Logging.Fatal Marshal MarshalIndent FormatTime now u l ctx msg fs
         ∧ ∀ u', Logging.log Marshal MarshalIndent FormatTime now u l' ctx
                   lvl msg fs = Done u' →
                 loggers u' = loggers u)
    ∧ (∀ ops u now ctx lvl msg fs,
         run_ops Marshal MarshalIndent FormatTime w' ops = Some u →
         Logging.log Marshal MarshalIndent FormatTime now u l' ctx lvl msg fs
         = Logging.log Marshal MarshalIndent FormatTime now u l ctx lvl msg fs
         ∧ Logging.Fatal Marshal MarshalIndent FormatTime now u l' ctx msg fs
           = Logging.Fatal Marshal MarshalIndent FormatTime now u l ctx msg
               fs).
Proof.
  intros Hl. unfold WithFields. rewrite Hl.
  destruct L as [lv sn en fm out]. simpl.
  set (l' := fresh (dom (loggers w))).
  assert (Hfresh : loggers w !! l' = None).
  { apply not_elem_of_dom. apply is_fresh. }
  assert (Hne : l' ≠ l) by congruence.
  eexists _, l', (mkLogger lv sn en fm out). split; [reflexivity|]. simpl.
  assert (Hsame : ∀ u, <[l' := mkLogger lv sn en fm out]> (loggers w)
                       ⊆ loggers u →
                       loggers u !! l' = loggers u !! l).
  { intros u Hu.
    assert (H1 : loggers u !! l' = Some (mkLogger lv sn en fm out)).
    { eapply lookup_weaken; [apply lookup_insert_eq|exact Hu]. }
    assert (H2 : loggers u !! l = Some (mkLogger lv sn en fm out)).
    { eapply lookup_weaken; [|exact Hu]. by rewrite lookup_insert_ne. }
    by rewrite H1, H2. }
  split_and!; try done;
    try (by rewrite lookup_insert_eq); try (by rewrite lookup_insert_ne).
  - intros u now ctx lvl msg fs Hu. specialize (Hsame u Hu). split_and!.
    + by apply log_same_record.
    + unfold Logging.Fatal. by rewrite (log_same_record _ _ l' l).
    + intros u' Hlog. by eapply log_keeps_loggers.
  - intros ops u now ctx lvl msg fs Hrun.
    apply run_ops_keeps_loggers in Hrun. specialize (Hsame u Hrun). split.
    + by apply log_same_record.
    + unfold Logging.Fatal. by rewrite (log_same_record _ _ l' l).
Qed.

End Logger.

Lemma WithFields_same_output_witness :
  ∃ u,
    Logging.WithFields server_world.1 server_world.2
      (Some (<["request" := VString "42"]> ∅)) = Some derived_world
    ∧ derived_world.2 ≠ server_world.2
    ∧ run_ops message_only message_only_indent no_clock derived_world.1
        later_ops = Some u
    ∧ Logging.log message_only message_only_indent no_clock 0 u
        derived_world.2 Background Logging.WARN "listening" None
      = Logging.log message_only message_only_indent no_clock 0 u
          server_world.2 Background Logging.WARN "listening" None.
Proof.
  destruct (WithFields_same_output message_only message_only_indent no_clock
              server_world.1 server_world.2
              {| Logging.level := Logging.INFO;
                 Logging.serviceName := "gotunnel-server";
                 Logging.environment := "production";
                 Logging.formatter :=
                   fresh (dom (∅ : gmap Logging.loc Logging.JSONFormatter));
                 Logging.output := Logging.Stdout |}
              (Some (<["request" := VString "42"]> ∅)))
    as (w' & l' & L' & Hw & Hne & _ & _ & _ & _ & _ & _ & _ & _ & _ & _ & _
        & _ & Hlater).
  { reflexivity. }
  assert (Hd : Logging.WithFields server_world.1 server_world.2
                 (Some (<["request" := VString "42"]> ∅))
               = Some derived_world) by reflexivity.
  assert (Hpair : derived_world = (w', l')) by congruence.
  assert (Hrun : ∃ u, run_ops message_only message_only_indent no_clock
                        derived_world.1 later_ops = Some u).
  { eexists. vm_compute. reflexivity. }
  destruct Hrun as [u Hrun]. exists u.
  split; [exact Hd|]. rewrite Hpair in Hrun |- *. simpl in Hrun |- *.
  split; [exact Hne|]. split; [exact Hrun|].
  apply (Hlater later_ops u 0 Background Logging.WARN "listening" None Hrun).
Defined.

(** What the two loggers of the example write. *)
Example WithFields_writes_the_same :
  ∀ w' l', Logging.WithFields server_world.1 server_world.2
             (Some (<["request" := VString "42"]> ∅)) = Some (w', l') →
  ∃ u, Logging.log message_only message_only_indent no_clock 0 w' l'
         Background Logging.WARN "listening" None = Logging.Done u
       ∧ Logging.files u !! Logging.Stdout
         = Some ["listening"; Logging.newline].
Proof.
  intros w' l' [= <- <-]. eexists. split; vm_compute; reflexivity.
Qed.

(** * One aggregation sees one registry *)

Section LockDiscipline.
Import Locking.

Lemma holders_insert f pool i t t' :
  pool !! i = Some t →
  (holders f (<[i := t']> pool) + (if f t then 1 else 0)
   = holders f pool + (if f t' then 1 else 0))%nat.
Proof.
  revert i. induction pool as [|x pool IH]; intros [|i] Hi; simpl in *;
    try done.
  - injection Hi as ->. lia.
  - specialize (IH i Hi). lia.
Qed.

Lemma holders_zero f pool :
  holders f pool = 0%nat → Forall (λ t, f t = false) pool.
Proof.
  induction pool as [|x pool IH]; simpl; [by constructor|].
  destruct (f x) eqn:Hx; [lia|]. intros Hz. constructor; [done|]. by apply IH.
Qed.

Lemma holders_pos f pool i t :
  pool !! i = Some t → f t = true → (0 < holders f pool)%nat.
Proof.
  revert i. induction pool as [|x pool IH]; intros [|i] Hi Ht; simpl in *;
    try done.
  - injection Hi as ->. rewrite Ht. lia.
  - specialize (IH i Hi Ht). lia.
Qed.

(** A goroutine that holds no read lock does not care what the registry
    is. *)
Lemma thread_ok_not_reading d d' t :
  reading t = false → thread_ok d t → thread_ok d' t.
Proof.
  unfold reading, aggregating, thread_ok.
  destruct (current t) as [[]|]; simpl; try done.
Qed.

Lemma lock_inv_initial h programs : lock_inv (initial h programs).
Proof.
  unfold lock_inv, initial. simpl.
  induction programs as [|p programs IH]; simpl.
  - split_and!; try done.
  - destruct IH as (Hr & Hw & _ & Hall). split_and!; try done.
    constructor; [|done]. split; [done|]. simpl. constructor.
Qed.

(** The range loop of a concurrent [Check], once it has covered every
    key, has computed the report of the sequential [Check]. *)
Lemma range_end_report now ctx snap visited st :
  NoDup visited.*1 →
  (∀ name c, (name, c) ∈ visited → checkers snap !! name = Some c) →
  range_checkers ctx visited (loop_start now snap) = Some st →
  (∀ name, name ∈ dom (checkers snap) → name ∈ visited.*1) →
  Check now snap ctx
  = Some (<["checks" := VMap (checkResults st)]> (result st)).
Proof.
  intros Hnd Hin Hrange Hcover.
  assert (Hperm : visited ≡ₚ map_to_list (checkers snap)).
  { apply NoDup_Permutation.
    - eapply NoDup_fmap_1, Hnd.
    - apply NoDup_map_to_list.
    - intros [name c]. rewrite elem_of_map_to_list. split; [apply Hin|].
      intros Hl.
      assert (Hk : name ∈ visited.*1) by (apply Hcover, elem_of_dom; eauto).
      apply list_elem_of_fmap in Hk as [[name' c'] [-> Hk]]. simpl in *.
      pose proof (Hin _ _ Hk). by simplify_eq. }
  destruct (Check_in_order_perm now snap ctx visited
              {| result := <["checks" := VMap (checkResults st)]> (result st);
                 checkResults := checkResults st;
                 invoked := invoked st |} Hperm)
    as (run' & Hrun' & Hres & _).
  { unfold Check_in_order. fold (loop_start now snap). by rewrite Hrange. }
  unfold Check. rewrite Hrun'. simpl. by rewrite Hres.
Qed.

Lemma lock_inv_step cfg cfg' : cstep cfg cfg' → lock_inv cfg → lock_inv cfg'.
Proof.
  intros [sh pool i t sh' t' Hi Hstep] (Hr & Hw & Hex & Hall).
  simpl in Hr, Hw, Hex, Hall.
  pose proof (holders_insert reading pool i t t' Hi) as Hcr.
  pose proof (holders_insert writing pool i t t' Hi) as Hcw.
  assert (Hti : thread_ok (data sh) t).
  { by eapply Forall_lookup_1 in Hall. }
  unfold lock_inv. simpl.
  destruct Hstep; simpl in *.
  - (* entering a method *)
    assert (Hrd : reading {| current := Some (enter c); todo := rest;
                             completed := done |} = false) by by destruct c.
    assert (Hwr : writing {| current := Some (enter c); todo := rest;
                             completed := done |} = false) by by destruct c.
    rewrite Hrd in Hcr. rewrite Hwr in Hcw.
    split_and!; [lia|lia|done|].
    apply Forall_insert; [done|]. destruct Hti as [_ Hdone].
    split; [|done]. by destruct c.
  - (* Lock *)
    rewrite H0 in Hw.
    split_and!; [lia|lia|done|].
    apply Forall_insert; [done|]. by destruct Hti.
  - (* the assignment *)
    assert (Hwriter : writer sh = true).
    { pose proof (holders_pos writing pool i _ Hi eq_refl).
      destruct (writer sh); [done|lia]. }
    split_and!; [lia|lia|done|].
    apply Forall_insert.
    + specialize (Hex Hwriter). rewrite Hex in Hr.
      symmetry in Hr. apply holders_zero in Hr.
      rewrite Forall_forall in Hr. rewrite Forall_forall in Hall.
      apply Forall_forall. intros x Hx.
      eapply thread_ok_not_reading; [by apply Hr | by apply Hall].
    + by destruct Hti.
  - (* Unlock *)
    assert (Hwriter : writer sh = true).
    { pose proof (holders_pos writing pool i _ Hi eq_refl).
      destruct (writer sh); [done|lia]. }
    rewrite Hwriter in Hw.
    split_and!; [lia|lia|done|].
    apply Forall_insert; [done|]. by destruct Hti.
  - (* RLock *)
    split_and!; [lia|lia|congruence|].
    apply Forall_insert; [done|]. destruct Hti as [_ Hdone]. by split.
  - (* reading ready *)
    split_and!; [lia|lia|done|].
    apply Forall_insert; [done|]. destruct Hti as [[-> ->] Hdone].
    by split.
  - (* reading shuttingDown *)
    split_and!; [lia|lia|done|].
    apply Forall_insert; [done|]. destruct Hti as [[-> ->] Hdone].
    split; [|done]. simpl. split_and!; try done.
    + constructor.
    + intros name c Hin. by apply elem_of_nil in Hin.
  - (* one iteration of the range loop *)
    split_and!; [lia|lia|done|].
    apply Forall_insert; [done|].
    destruct Hti as [(-> & Hnd & Hin & Hrange) Hdone].
    split; [|done]. simpl. split_and!; try done.
    + rewrite fmap_app. apply NoDup_app. split_and!; [done| |].
      * intros x Hx Hx'. apply list_elem_of_singleton in Hx'. by subst.
      * apply NoDup_singleton.
    + intros k c Hk. apply elem_of_app in Hk as [Hk|Hk]; [by apply Hin|].
      apply list_elem_of_singleton in Hk. by simplify_eq.
    + rewrite range_checkers_app, Hrange. simpl. by rewrite H1.
  - (* leaving the range loop *)
    split_and!; [lia|lia|done|].
    apply Forall_insert; [done|].
    destruct Hti as [(-> & Hnd & Hin & Hrange) Hdone].
    split; [|done]. simpl. split; [done|].
    by apply (range_end_report now ctx _ visited st).
  - (* RUnlock *)
    split_and!; [lia|lia| |].
    + intros Hwriter. specialize (Hex Hwriter). lia.
    + apply Forall_insert; [done|].
      destruct Hti as [[-> Hrep] Hdone]. split; [done|]. simpl.
      apply Forall_app. split; [done|]. by constructor.
Qed.

Lemma lock_inv_reachable h programs cfg :
  rtc cstep (initial h programs) cfg → lock_inv cfg.
Proof.
  revert cfg. apply rtc_ind_r; [apply lock_inv_initial|].
  intros y z _ Hstep Hy. by eapply lock_inv_step.
Qed.

(** C9. In every interleaving of goroutines calling the methods of one
    registry: while a [Check] is between its [RLock] and its [RUnlock], the
    registry is the one it found when it took the lock, the read lock is
    held, and no goroutine holds the write lock or is past its [Lock], so
    no [SetReady], [SetShuttingDown] or [RegisterChecker] has assigned
    meanwhile; and the report of every finished [Check] is the report of
    the sequential [Check] on that one registry. *)
Theorem Check_reads_one_snapshot h programs sh pool i t :
  rtc cstep (initial h programs) (sh, pool) →
  pool !! i = Some t →
  (∀ snap, aggregating t = Some snap →
     data sh = snap
     ∧ (0 < readers sh)%nat
     ∧ writer sh = false
     ∧ ∀ j tj, pool !! j = Some tj → writing tj = false)
  ∧ (∀ f, f ∈ completed t →
       Check (fin_now f) (fin_snapshot f) (fin_ctx f) = Some (fin_report f)).
Proof.
  intros Hrun Hi.
  destruct (lock_inv_reachable _ _ _ Hrun) as (Hr & Hw & Hex & Hall).
  simpl in *.
  assert (Hti : thread_ok (data sh) t) by by eapply Forall_lookup_1 in Hall.
  split.
  - intros snap Hagg.
    assert (Hreading : reading t = true) by (unfold reading; by rewrite Hagg).
    pose proof (holders_pos reading pool i t Hi Hreading) as Hpos.
    assert (Hnw : writer sh = false).
    { destruct (writer sh); [|done]. specialize (Hex eq_refl). lia. }
    split_and!; [|lia|done|].
    + destruct Hti as [Hfr _]. unfold aggregating in Hagg.
      destruct (current t) as [[]|]; simplify_eq/=; by destruct Hfr.
    + intros j tj Hj. rewrite Hnw in Hw. symmetry in Hw.
      apply holders_zero in Hw. by eapply Forall_lookup_1 in Hw.
  - intros f Hf. destruct Hti as [_ Hdone].
    rewrite Forall_forall in Hdone. by apply Hdone.
Qed.

End LockDiscipline.

Lemma cstep_at sh pool i t sh' t' pool' :
  pool !! i = Some t →
  Locking.tstep sh t sh' t' →
  pool' = <[i := t']> pool →
  Locking.cstep (sh, pool) (sh', pool').
Proof. intros Hi Hstep ->. by apply Locking.cstep_thread with (t := t). Qed.

Lemma mid_aggregation_reachable :
  rtc Locking.cstep (Locking.initial ready_registry two_goroutines)
      mid_aggregation.
Proof.
  unfold Locking.initial, two_goroutines, mid_aggregation. simpl.
  eapply rtc_l.
  { eapply cstep_at with (i := 0%nat); [reflexivity|constructor|reflexivity]. }
  eapply rtc_l.
  { eapply cstep_at with (i := 1%nat); [reflexivity|constructor|reflexivity]. }
  eapply rtc_l.
  { eapply cstep_at with (i := 0%nat); [reflexivity|by constructor|reflexivity]. }
  eapply rtc_l.
  { eapply cstep_at with (i := 0%nat); [reflexivity|constructor|reflexivity]. }
  simpl. reflexivity.
Qed.

Lemma Check_reads_one_snapshot_witness :
  Locking.data mid_aggregation.1 = ready_registry
  ∧ Locking.writer mid_aggregation.1 = false.
Proof.
  destruct (Check_reads_one_snapshot ready_registry two_goroutines
              mid_aggregation.1 mid_aggregation.2 0%nat
              {| Locking.current :=
                   Some (Locking.AtReadShuttingDown "2024-05-01T10:00:00Z"
                           Background ready_registry
                           (<["ready" := VBool true]>
                              (<["timestamp" := VString "2024-05-01T10:00:00Z"]>
                                 (<["status" := VString "healthy"]> ∅))));
                 Locking.todo := []; Locking.completed := [] |}
              mid_aggregation_reachable eq_refl) as [Hsnap _].
  destruct (Hsnap ready_registry eq_refl) as (Hdata & _ & Hwriter & _).
  split; [exact Hdata | exact Hwriter].
Defined.

(** The writer of the example cannot take the lock while the aggregation
    is in progress. *)
Lemma writer_waits sh' t' :
  ¬ Locking.tstep mid_aggregation.1
      {| Locking.current := Some (Locking.AtLock (Locking.CallSetShuttingDown true));
         Locking.todo := []; Locking.completed := [] |} sh' t'.
Proof. intros Hstep. inversion Hstep; simplify_eq/=. Qed.

(** * Further properties of HealthService *)

Lemma Check_in_order_is_Some now h ctx order :
  is_Some (Check_in_order now h ctx order)
  ↔ Forall (λ kc, responds ctx kc.2) order.
Proof.
  rewrite <- (range_checkers_is_Some ctx order (loop_start now h)).
  unfold Check_in_order, loop_start.
  destruct (range_checkers _ _ _); split; intros [? ?]; eauto; done.
Qed.

Lemma Check_in_order_Check now h ctx order :
  order ≡ₚ map_to_list (checkers h) →
  result <$> Check_in_order now h ctx order = Check now h ctx.
Proof.
  intros Hp. destruct (Check_in_order now h ctx order) as [run|] eqn:Hrun.
  - destruct (Check_in_order_perm _ _ _ _ _ Hp Hrun) as (run' & Hrun' & Hres & _).
    unfold Check. rewrite Hrun'. simpl. by rewrite Hres.
  - unfold Check. destruct (Check_run now h ctx) as [run'|] eqn:Hrun'; [|done].
    assert (Hsome : is_Some (Check_in_order now h ctx order)).
    { apply Check_in_order_is_Some. rewrite Hp. apply all_respond_Forall.
      apply (Check_run_is_Some now). rewrite Hrun'. eauto. }
    rewrite Hrun in Hsome. by destruct Hsome.
Qed.

(** X1. Whatever order the runtime visits the map of checkers in, [Check]
    returns the same report, or in both cases never returns. *)
Theorem Check_order_irrelevant now h ctx order order' :
  order ≡ₚ map_to_list (checkers h) →
  order' ≡ₚ map_to_list (checkers h) →
  result <$> Check_in_order now h ctx order
  = result <$> Check_in_order now h ctx order'.
Proof.
  intros Hp Hp'. by rewrite !Check_in_order_Check.
Qed.

Lemma Check_order_irrelevant_witness :
  result <$> Check_in_order "2024-05-01T10:00:00Z" example_registry Background
               (reverse (map_to_list (checkers example_registry)))
  = result <$> Check_in_order "2024-05-01T10:00:00Z" example_registry Background
                 (map_to_list (checkers example_registry)).
Proof.
  apply Check_order_irrelevant; [apply reverse_Permutation|reflexivity].
Defined.

Lemma check_entry_unhealthy e entry :
  check_entry e = VMap entry →
  entry !! "status" = Some (VString "unhealthy") ↔ is_Some e.
Proof.
  destruct e as [msg|]; simpl; intros [= <-].
  - rewrite lookup_insert_eq. split; eauto.
  - rewrite lookup_insert_eq. split; [done|]. by intros [? ?].
Qed.

(** X2. In a report the overall status is "unhealthy" exactly when some
    entry of checks is. *)
Theorem Check_status_consistent now h ctx report :
  Check now h ctx = Some report →
  ∃ checks, report !! "checks" = Some (VMap checks)
    ∧ (report !! "status" = Some (VString "unhealthy")
       ↔ ∃ name entry, checks !! name = Some (VMap entry)
                       ∧ entry !! "status" = Some (VString "unhealthy")).
Proof.
  unfold Check. intros (run & Hrun & ->)%fmap_Some.
  destruct (Check_run_inv _ _ _ _ Hrun) as (Hres & Hdom & Hent & _).
  exists (checkResults run). rewrite Hres. split; [by rewrite lookup_insert_eq|].
  rewrite lookup_insert_ne by done.
  assert (Hst : (if any_fails ctx h
                 then <["status" := VString "unhealthy"]> (initial_result now h)
                 else initial_result now h) !! "status"
                = Some (VString "unhealthy") ↔ any_fails ctx h = true).
  { destruct (any_fails ctx h).
    - by rewrite lookup_insert_eq.
    - rewrite initial_result_status. split; [|done]. by intros [= ?]. }
  rewrite Hst, any_fails_true. split.
  - intros (name & c & Hl & Hf). destruct (Hent name c Hl) as (e & He & Hentry).
    unfold fails, failsb in Hf. rewrite He in Hf. destruct e as [msg|]; [|done].
    exists name. eexists. split; [exact Hentry|]. by rewrite lookup_insert_eq.
  - intros (name & entry & Hl & Hs).
    assert (Hin : name ∈ dom (checkers h)).
    { rewrite <- Hdom. apply elem_of_dom. eauto. }
    apply elem_of_dom in Hin as [c Hc]. exists name, c. split; [done|].
    destruct (Hent name c Hc) as (e & He & Hentry).
    rewrite Hl in Hentry. injection Hentry as Hentry. symmetry in Hentry.
    apply (check_entry_unhealthy e entry Hentry) in Hs as [msg ->].
    unfold fails, failsb. by rewrite He.
Qed.

Lemma Check_status_consistent_witness :
  ∃ report checks,
    Check "2024-05-01T10:00:00Z" example_registry Background = Some report
    ∧ report !! "checks" = Some (VMap checks)
    ∧ (report !! "status" = Some (VString "unhealthy")
       ↔ ∃ name entry, checks !! name = Some (VMap entry)
                       ∧ entry !! "status" = Some (VString "unhealthy")).
Proof.
  assert (Hsome : is_Some (Check "2024-05-01T10:00:00Z" example_registry
                             Background)).
  { unfold Check. rewrite fmap_is_Some.
    apply Check_run_is_Some, example_registry_responds. }
  destruct Hsome as [report Hrep].
  destruct (Check_status_consistent _ _ _ _ Hrep) as (checks & Hc & Hiff).
  exists report, checks. split; [exact Hrep|]. split; [exact Hc|exact Hiff].
Defined.

(** The loop touches [result] only by setting its status. *)
Lemma range_checkers_with_result ctx g order st :
  (∀ m, g (<["status" := VString "unhealthy"]> m)
        = <["status" := VString "unhealthy"]> (g m)) →
  range_checkers ctx order (with_result g st)
  = with_result g <$> range_checkers ctx order st.
Proof.
  intros Hg. revert st. induction order as [|[name c] rest IH]; intros st;
    simpl; [done|].
  unfold loop_body.
  destruct (CheckerCheck c ctx) as [[e|]|]; simpl; [| |done].
  - rewrite <- IH. unfold with_result. simpl. by rewrite Hg.
  - rewrite <- IH. done.
Qed.

Lemma Check_with_flag now h h' ctx key v :
  checkers h' = checkers h →
  key ≠ "status" → key ≠ "checks" →
  initial_result now h' = <[key := v]> (initial_result now h) →
  Check now h' ctx = insert key v <$> Check now h ctx.
Proof.
  intros Hck Hk1 Hk2 Hinit. unfold Check, Check_run, Check_in_order.
  rewrite Hck, Hinit.
  change {| result := <[key := v]> (initial_result now h);
            checkResults := ∅; invoked := [] |}
    with (with_result (insert key v) (loop_start now h)).
  rewrite range_checkers_with_result
    by (intros m; by apply insert_insert_ne).
  unfold loop_start.
  destruct (range_checkers ctx _ _) as [st|]; simpl; [|done].
  f_equal. by apply insert_insert_ne.
Qed.

(** X3. A setter shows in the report as its own field and nothing else:
    the report after [SetReady] or [SetShuttingDown] is the report before
    with that one field replaced (and [Check] returns after it exactly when
    it did before). *)
Theorem setters_change_one_report_field now h ctx b :
  Check now (SetReady h b) ctx = insert "ready" (VBool b) <$> Check now h ctx
  ∧ Check now (SetShuttingDown h b) ctx
    = insert "shutting_down" (VBool b) <$> Check now h ctx.
Proof.
  split; by apply Check_with_flag.
Qed.

Lemma apply_calls_snoc h calls c :
  apply_calls h (calls ++ [c]) = Locking.assign c (apply_calls h calls).
Proof. unfold apply_calls. by rewrite foldl_app. Qed.

(** X4. Whatever sequence of [RegisterChecker], [SetReady] and
    [SetShuttingDown] calls a new registry has received, every key of its
    checker map is the name of the checker stored under it, and a name
    leads to the checker registered last under that name. *)
Theorem registry_keyed_by_name calls :
  keyed_by_name (apply_calls NewHealthService calls)
  ∧ ∀ name, checkers (apply_calls NewHealthService calls) !! name
            = last_registered name calls.
Proof.
  induction calls as [|c calls [IHk IHl]] using rev_ind.
  - split; [apply map_Forall_empty|]. intros name. apply lookup_empty.
  - rewrite apply_calls_snoc. split.
    + destruct c; simpl; try done. by apply RegisterChecker_keyed.
    + intros name. unfold last_registered, registered.
      rewrite omap_app, filter_app. fold (registered calls).
      fold (last_registered name calls).
      destruct c as [k| | |]; simpl;
        try (rewrite filter_nil, app_nil_r; apply IHl).
      rewrite filter_cons, filter_nil.
      destruct (decide (Name k = name)) as [<-|Hne].
      * by rewrite lookup_insert_eq, last_snoc.
      * rewrite lookup_insert_ne, app_nil_r by done. apply IHl.
Qed.

(** X5. The two checkers shipped with the package answer nil whatever
    file or minimum they were made with: registering one never makes
    [Check] block, adds a healthy entry under its name, and never turns a
    healthy report unhealthy. *)
Theorem shipped_checkers_never_fail now h ctx report stub :
  (∃ f, stub = CertificateChecker f) ∨ (∃ n, stub = TunnelConnectionChecker n) →
  Check now h ctx = Some report →
  ∃ report' checks',
    Check now (RegisterChecker h stub) ctx = Some report'
    ∧ report' !! "checks" = Some (VMap checks')
    ∧ checks' !! Name stub = Some (check_entry None)
    ∧ (report !! "status" = Some (VString "healthy") →
       report' !! "status" = Some (VString "healthy")).
Proof.
  intros Hstub Hrep.
  assert (Hnil : CheckerCheck stub ctx = Returns None).
  { by destruct Hstub as [[f ->]|[n ->]]. }
  unfold Check in Hrep. apply fmap_Some in Hrep as (run & Hrun & ->).
  assert (Hall : map_Forall (λ _ c, responds ctx c)
                   (checkers (RegisterChecker h stub))).
  { apply map_Forall_insert_2.
    - unfold responds. by rewrite Hnil.
    - apply (Check_run_is_Some now). rewrite Hrun. eauto. }
  apply (Check_run_is_Some now) in Hall as [run' Hrun'].
  destruct (Check_run_inv _ _ _ _ Hrun) as (Hres & _).
  destruct (Check_run_inv _ _ _ _ Hrun') as (Hres' & _ & Hent' & _).
  exists (result run'), (checkResults run'). unfold Check. rewrite Hrun'.
  split_and!; [done| | |].
  - rewrite Hres'. by rewrite lookup_insert_eq.
  - destruct (Hent' (Name stub) stub) as (e & He & ->);
      [apply lookup_insert_eq|]. congruence.
  - rewrite Hres, Hres'. rewrite !lookup_insert_ne by done.
    destruct (any_fails ctx h) eqn:Hf.
    + rewrite lookup_insert_eq. by intros [= ?].
    + intros _.
      assert (Hf' : any_fails ctx (RegisterChecker h stub) = false).
      { apply any_fails_false. intros name c Hl. simpl in Hl.
        destruct (decide (Name stub = name)) as [<-|Hne].
        - rewrite lookup_insert_eq in Hl. injection Hl as <-.
          unfold fails, failsb. by rewrite Hnil.
        - rewrite lookup_insert_ne in Hl by done.
          by apply (proj1 (any_fails_false ctx h) Hf name c). }
      rewrite Hf'. apply initial_result_status.
Qed.

Lemma shipped_checkers_never_fail_witness :
  ∃ report report' checks',
    Check "2024-05-01T10:00:00Z" ready_registry Background = Some report
    ∧ Check "2024-05-01T10:00:00Z"
        (RegisterChecker ready_registry (CertificateChecker "/no/such/file"))
        Background = Some report'
    ∧ report' !! "checks" = Some (VMap checks')
    ∧ checks' !! "certificate" = Some (check_entry None).
Proof.
  assert (Hrep : Check "2024-05-01T10:00:00Z" ready_registry Background
                 = Some (<["checks" := VMap ∅]>
                           (initial_result "2024-05-01T10:00:00Z"
                                           ready_registry)))
    by reflexivity.
  destruct (shipped_checkers_never_fail _ _ _ _
              (CertificateChecker "/no/such/file")
              (or_introl (ex_intro _ "/no/such/file" eq_refl)) Hrep)
    as (report' & checks' & H1 & H2 & H3 & _).
  eexists _, report', checks'. split; [exact Hrep|]. by split_and!.
Defined.

(** * Further properties of the handlers and of main *)

Lemma healthz_is_Some Encode (v : view) now ctx :
  is_Some (healthz Encode v now ctx)
  ↔ map_Forall (λ _ c, responds ctx c) (checkers (v 0%nat)).
Proof.
  rewrite <- (Check_run_is_Some now). unfold healthz.
  destruct (Check_run now (v 0%nat) ctx); split; intros [? ?]; eauto; done.
Qed.

(** X6. /healthz answers exactly when every registered checker answers,
    and a request that is answered has invoked each registered checker
    exactly once. *)
Theorem healthz_probes_every_checker Encode (v : view) now ctx :
  (is_Some (healthz Encode v now ctx)
   ↔ map_Forall (λ _ c, responds ctx c) (checkers (v 0%nat)))
  ∧ (∀ hd, healthz Encode v now ctx = Some hd →
       probed hd ≡ₚ map_to_list (checkers (v 0%nat))
       ∧ NoDup (probed hd)).
Proof.
  split; [apply healthz_is_Some|].
  - intros hd. unfold healthz.
    destruct (Check_run now (v 0%nat) ctx) as [run|] eqn:Hrun; [|done].
    intros [= <-]. simpl.
    destruct (Check_run_inv _ _ _ _ Hrun) as (_ & _ & _ & ->).
    rewrite reverse_Permutation. split; [done|apply NoDup_map_to_list].
Qed.

(** X7. /healthz reads the shutting-down flag a second time after [Check]
    has returned: when the flag is set in between, the answer is 503 while
    its body, made from the earlier read, says shutting_down false. *)
Theorem healthz_flag_read_twice Encode (v : view) now ctx hd :
  healthz Encode v now ctx = Some hd →
  shuttingDown (v 0%nat) = false →
  IsShuttingDown (v 1%nat) = true →
  statusCode (response hd) = 503
  ∧ ∃ report, Check now (v 0%nat) ctx = Some report
      ∧ body (response hd) = Encode report
      ∧ report !! "shutting_down" = Some (VBool false).
Proof.
  unfold healthz, Check.
  destruct (Check_run now (v 0%nat) ctx) as [run|] eqn:Hrun; [|done].
  intros [= <-] Hsd0 Hsd1. simpl. rewrite Hsd1, orb_true_r.
  split; [done|]. exists (result run). split_and!; try done.
  destruct (Check_run_inv _ _ _ _ Hrun) as (-> & _).
  rewrite lookup_insert_ne by done.
  destruct (any_fails ctx (v 0%nat)); rewrite ?lookup_insert_ne by done;
    unfold initial_result; by rewrite lookup_insert_eq, Hsd0.
Qed.

Lemma healthz_flag_read_twice_witness :
  ∃ hd report,
    healthz status_only flipping_view "2024-05-01T10:00:00Z" Background
    = Some hd
    ∧ statusCode (response hd) = 503
    ∧ Check "2024-05-01T10:00:00Z" (flipping_view 0%nat) Background
      = Some report
    ∧ report !! "shutting_down" = Some (VBool false).
Proof.
  assert (Hsome : is_Some (healthz status_only flipping_view
                             "2024-05-01T10:00:00Z" Background)).
  { apply healthz_is_Some. apply map_Forall_empty. }
  destruct Hsome as [hd Hhd].
  destruct (healthz_flag_read_twice _ _ _ _ _ Hhd eq_refl eq_refl)
    as (Hcode & report & Hrep & _ & Hfield).
  exists hd, report. by split_and!.
Defined.

(** X8. The server's [main] returns exactly when its two flag writes are
    granted the lock and both [Shutdown] calls and [wg.Wait()] return:
    the 30-second deadline is handed to the components but nothing in
    [main] enforces it, so a lock that is never granted or a call that
    never returns keeps the process from ending. *)
Theorem main_returns_iff muLock Shutdown wgWait t0 h :
  (∃ n, at_pc (steps muLock Shutdown wgWait n (init t0 h)) = Returned)
  ↔ ∃ ta tb t1 e1 t2 e2 t3,
      muLock t0 = Some ta
      ∧ muLock ta = Some tb
      ∧ Shutdown HTTPServer (shutdown_context t0) tb = Some (t1, e1)
      ∧ Shutdown TunnelServer (shutdown_context t0) t1 = Some (t2, e2)
      ∧ wgWait t2 = Some t3.
Proof.
  split.
  - intros [n Hn].
    pose proof (returns_inv_steps muLock Shutdown wgWait t0 n (init t0 h)
                  eq_refl) as Hinv.
    unfold returns_inv in Hinv. rewrite Hn in Hinv.
    destruct Hinv as (ta & tb & t1 & e1 & t2 & e2 & Ha & Hb & H1 & H2 & H3).
    eauto 12.
  - intros (ta & tb & t1 & e1 & t2 & e2 & t3 & Ha & Hb & H1 & H2 & H3).
    exists 10%nat.
    by rewrite (steps_to_the_end muLock Shutdown wgWait t0 h ta tb t1 e1 t2
                  e2 t3).
Qed.

(** X9. The server's [parseLogLevel] knows the four lower-case names and
    maps every other string to INFO: its result is never above ERROR, and
    the names [Level.String] prints are not among those it knows. *)
Theorem parseLogLevel_range lvl :
  Logging.DEBUG ≤ parseLogLevel lvl ≤ Logging.ERROR
  ∧ (lvl ≠ "debug" → lvl ≠ "warn" → lvl ≠ "error" →
     parseLogLevel lvl = Logging.INFO)
  ∧ (parseLogLevel lvl = Logging.DEBUG ↔ lvl = "debug")
  ∧ (parseLogLevel lvl = Logging.WARN ↔ lvl = "warn")
  ∧ (parseLogLevel lvl = Logging.ERROR ↔ lvl = "error")
  ∧ ∀ l, parseLogLevel (Logging.Level_String l) = Logging.INFO.
Proof.
  unfold parseLogLevel, Logging.DEBUG, Logging.INFO, Logging.WARN,
    Logging.ERROR.
  split; [repeat case_bool_decide; lia|]. split_and!.
  - intros Hd Hw He.
    rewrite (bool_decide_eq_false_2 (lvl = "debug")),
      (bool_decide_eq_false_2 (lvl = "warn")),
      (bool_decide_eq_false_2 (lvl = "error")) by done.
    by destruct (bool_decide (lvl = "info")).
  - repeat case_bool_decide; split; intros; simplify_eq; done.
  - repeat case_bool_decide; split; intros; simplify_eq; done.
  - repeat case_bool_decide; split; intros; simplify_eq; done.
  - intros l. unfold Logging.Level_String.
    repeat (destruct (_ =? _)); reflexivity.
Qed.

(** * Further properties of the logger *)

(** X10. [Level.String] names exactly the levels 0 to 4: every other
    number prints as "UNKNOWN", and two levels print the same only if
    they are equal or both out of range. *)
Theorem Level_String_names l :
  (Logging.Level_String l = "UNKNOWN" ↔ l < 0 ∨ 4 < l)
  ∧ ∀ l', Logging.Level_String l = Logging.Level_String l' →
          l = l' ∨ ((l < 0 ∨ 4 < l) ∧ (l' < 0 ∨ 4 < l')).
Proof.
  assert (Hcases : ∀ k, (k < 0 ∨ 4 < k) ∧ Logging.Level_String k = "UNKNOWN"
                        ∨ k = 0 ∧ Logging.Level_String k = "DEBUG"
                        ∨ k = 1 ∧ Logging.Level_String k = "INFO"
                        ∨ k = 2 ∧ Logging.Level_String k = "WARN"
                        ∨ k = 3 ∧ Logging.Level_String k = "ERROR"
                        ∨ k = 4 ∧ Logging.Level_String k = "FATAL").
  { intros k. unfold Logging.Level_String, Logging.DEBUG, Logging.INFO,
      Logging.WARN, Logging.ERROR, Logging.FATAL.
    destruct (Z.eqb_spec k 0); [by right; left|].
    destruct (Z.eqb_spec k 1); [by do 2 right; left|].
    destruct (Z.eqb_spec k 2); [by do 3 right; left|].
    destruct (Z.eqb_spec k 3); [by do 4 right; left|].
    destruct (Z.eqb_spec k 4); [by do 5 right|].
    left. split; [lia|done]. }
  split.
  - destruct (Hcases l) as [[? ->]|[[? ->]|[[? ->]|[[? ->]|[[? ->]|[? ->]]]]]];
      split; try done; lia.
  - intros l'.
    destruct (Hcases l) as [[? ->]|[[? ->]|[[? ->]|[[? ->]|[[? ->]|[? ->]]]]]];
    destruct (Hcases l') as [[? ->]|[[? ->]|[[? ->]|[[? ->]|[[? ->]|[? ->]]]]]];
      intros Heq; try done; try (left; lia). by right.
Qed.

Section LoggerMore.
Import Logging.
Context (Marshal : LogEntry → option string).
Context (MarshalIndent : LogEntry → string → string → option string).
Context (FormatTime : Z → string → string).

Lemma string_of_ctx_None ctx key dflt :
  string_of_ctx ctx key dflt = None ↔ not_a_string ctx key.
Proof.
  unfold string_of_ctx, not_a_string.
  destruct (Value ctx key) as [[s|z]|]; split; try done; eauto;
    by intros [? ?].
Qed.

(** When a log call panics. *)
Lemma log_Panicked now w l L ctx lvl msg fields :
  loggers w !! l = Some L →
  Logging.log Marshal MarshalIndent FormatTime now w l ctx lvl msg fields
  = Panicked
  ↔ level L ≤ lvl
    ∧ (not_a_string ctx "trace_id" ∨ not_a_string ctx "span_id"
       ∨ formatters w !! formatter L = None).
Proof.
  intros Hl. unfold Logging.log. rewrite Hl.
  destruct (Z.ltb_spec lvl (level L)) as [Hlt|Hge].
  { split; [done|]. intros [? _]. lia. }
  rewrite <- !(string_of_ctx_None _ _ "").
  destruct (string_of_ctx ctx "trace_id" "") as [tid|];
    [|by split; [intros _; split; [done|left]|]].
  destruct (string_of_ctx ctx "span_id" "") as [sid|];
    [|by split; [intros _; split; [done|right; left]|]].
  destruct (formatters w !! formatter L) as [f|];
    [|by split; [intros _; split; [done|right; right]|]].
  destruct (Format _ _ _ _ _ _) as [f' [bytes|]];
    (split; [done|]); by intros [_ [?|[?|?]]].
Qed.

(** X11. A log call on an allocated logger panics exactly when its level
    passes the logger's threshold and the context carries a non-string
    trace_id or span_id, or the logger's formatter is nil; a call below
    the threshold never panics, whatever the context. *)
Theorem log_panics_iff now w l L ctx lvl msg fields :
  loggers w !! l = Some L →
  Logging.log Marshal MarshalIndent FormatTime now w l ctx lvl msg fields
  = Panicked
  ↔ level L ≤ lvl
    ∧ (not_a_string ctx "trace_id" ∨ not_a_string ctx "span_id"
       ∨ formatters w !! formatter L = None).
Proof. apply log_Panicked. Qed.

(** X12. A log call only appends: it leaves the loggers, every other file
    and every other formatter alone, and to the logger's own output it
    adds either nothing or one chunk of data followed by a newline. *)
Theorem log_appends_only now w l L ctx lvl msg fields w' :
  loggers w !! l = Some L →
  Logging.log Marshal MarshalIndent FormatTime now w l ctx lvl msg fields
  = Done w' →
  loggers w' = loggers w
  ∧ (∀ f, f ≠ output L → files w' !! f = files w !! f)
  ∧ (∀ a, a ≠ formatter L → formatters w' !! a = formatters w !! a)
  ∧ (files w' = files w
     ∨ ∃ bytes, written w' (output L)
                = written w (output L) ++ [bytes; newline]).
Proof.
  intros Hl. unfold Logging.log. rewrite Hl.
  destruct (lvl <? level L); [by intros [= <-]; auto|].
  destruct (string_of_ctx ctx "trace_id" ""); [|done].
  destruct (string_of_ctx ctx "span_id" ""); [|done].
  destruct (formatters w !! formatter L) as [f|]; [|done].
  destruct (Format _ _ _ _ _ _) as [f' [bytes|]]; intros [= <-]; simpl.
  - split_and!; [done| | |].
    + intros f0 Hne. by rewrite !lookup_insert_ne.
    + intros a Hne. by rewrite lookup_insert_ne.
    + right. exists bytes. unfold written. simpl.
      rewrite !lookup_insert_eq. simpl. by rewrite <- app_assoc.
  - split_and!; [done|done| |by left].
    intros a Hne. by rewrite lookup_insert_ne.
Qed.

(** X13. [Format] fills in the default timestamp layout in the formatter
    itself, once: afterwards the layout is never empty and a further call
    leaves the formatter as it is; pretty-printing is never switched; a
    layout that was set is kept; and the timestamp the caller put in the
    entry is never used. *)
Theorem Format_defaults_in_place now f entry :
  TimestampFormat (Format Marshal MarshalIndent FormatTime now f entry).1 ≠ ""
  ∧ PrettyPrint (Format Marshal MarshalIndent FormatTime now f entry).1
    = PrettyPrint f
  ∧ (TimestampFormat f ≠ "" →
     (Format Marshal MarshalIndent FormatTime now f entry).1 = f)
  ∧ (TimestampFormat f = "" →
     TimestampFormat (Format Marshal MarshalIndent FormatTime now f entry).1
     = RFC3339)
  ∧ (∀ now' entry',
       (Format Marshal MarshalIndent FormatTime now'
          (Format Marshal MarshalIndent FormatTime now f entry).1 entry').1
       = (Format Marshal MarshalIndent FormatTime now f entry).1)
  ∧ (∀ entry', same_but_timestamp entry entry' →
       Format Marshal MarshalIndent FormatTime now f entry'
       = Format Marshal MarshalIndent FormatTime now f entry).
Proof.
  unfold Format. simpl. split_and!.
  - case_bool_decide; simpl; done.
  - by case_bool_decide.
  - intros Hne. by rewrite bool_decide_eq_false_2.
  - intros Heq. by rewrite bool_decide_eq_true_2.
  - intros now' entry'.
    destruct (bool_decide (TimestampFormat f = "")) eqn:Hb; simpl.
    + reflexivity.
    + by rewrite Hb.
  - intros entry' (H1 & H2 & H3 & H4 & H5 & H6 & H7).
    by rewrite H1, H2, H3, H4, H5, H6, H7.
Qed.

(** What a call that passes the threshold does, with a usable context and
    formatter. *)
Lemma log_passes now w l L f ctx lvl msg fields :
  loggers w !! l = Some L →
  formatters w !! formatter L = Some f →
  level L ≤ lvl →
  ¬ not_a_string ctx "trace_id" → ¬ not_a_string ctx "span_id" →
  ∃ tid sid w',
    Logging.log Marshal MarshalIndent FormatTime now w l ctx lvl msg fields
    = Done w'
    ∧ ∀ bytes,
        (Format Marshal MarshalIndent FormatTime now f
           (log_entry L lvl msg tid sid fields)).2 = Some bytes →
        written w' (output L) = written w (output L) ++ [bytes; newline].
Proof.
  intros Hl Hf Hge Ht Hs. unfold Logging.log. rewrite Hl, Hf.
  destruct (Z.ltb_spec lvl (level L)) as [Hlt|_]; [lia|].
  destruct (string_of_ctx ctx "trace_id" "") as [tid|] eqn:Htid;
    [|by apply string_of_ctx_None in Htid].
  destruct (string_of_ctx ctx "span_id" "") as [sid|] eqn:Hsid;
    [|by apply string_of_ctx_None in Hsid].
  exists tid, sid. fold (log_entry L lvl msg tid sid fields).
  destruct (Format _ _ _ _ _ _) as [f' [bytes|]]; eexists; (split; [done|]);
    simpl; [|done].
  intros ? [= <-]. unfold written. simpl.
  rewrite !lookup_insert_eq. simpl. by rewrite <- app_assoc.
Qed.

(** X14. A logger whose level the server read from its configuration
    never drops an error: whatever the configured string, an [Error] or
    [Fatal] call with a usable context reaches the formatter and, when the
    encoder succeeds, appends the line to the output; [Fatal] then exits
    with status 1. *)
Theorem configured_logger_keeps_errors now w l L f cfgLevel ctx msg fields :
  loggers w !! l = Some L →
  level L = Server.parseLogLevel cfgLevel →
  formatters w !! formatter L = Some f →
  ¬ not_a_string ctx "trace_id" → ¬ not_a_string ctx "span_id" →
  (∃ tid sid w',
     Logging.Error Marshal MarshalIndent FormatTime now w l ctx msg fields
     = Done w'
     ∧ ∀ bytes,
         (Format Marshal MarshalIndent FormatTime now f
            (log_entry L ERROR msg tid sid fields)).2 = Some bytes →
         written w' (output L) = written w (output L) ++ [bytes; newline])
  ∧ (∃ tid sid w',
       Logging.Fatal Marshal MarshalIndent FormatTime now w l ctx msg fields
       = Exited w' 1
       ∧ ∀ bytes,
           (Format Marshal MarshalIndent FormatTime now f
              (log_entry L FATAL msg tid sid fields)).2 = Some bytes →
           written w' (output L) = written w (output L) ++ [bytes; newline]).
Proof.
  intros Hl Hlvl Hf Ht Hs.
  assert (Hle : level L ≤ ERROR).
  { rewrite Hlvl. unfold Server.parseLogLevel, DEBUG, INFO, WARN, ERROR.
    repeat case_bool_decide; lia. }
  split.
  - unfold Logging.Error. eapply log_passes; eauto.
  - unfold Logging.Fatal.
    destruct (log_passes now w l L f ctx FATAL msg fields)
      as (tid & sid & w' & Hlog & Hw); try done.
    { unfold FATAL, ERROR in *. lia. }
    exists tid, sid, w'. by rewrite Hlog.
Qed.

(** X15. The client's [parseLogLevel] ignores the configured level: the
    client's logger is at INFO whatever the configuration says, so its
    [Debug] calls change nothing, and the client agrees with the server's
    reading of a level exactly outside "debug", "warn" and "error". *)
Theorem client_ignores_log_level now w l L cfgLevel ctx msg fields :
  loggers w !! l = Some L →
  level L = Client.parseLogLevel cfgLevel →
  Logging.Debug Marshal MarshalIndent FormatTime now w l ctx msg fields
  = Done w
  ∧ (Client.parseLogLevel cfgLevel = Server.parseLogLevel cfgLevel
     ↔ cfgLevel ≠ "debug" ∧ cfgLevel ≠ "warn" ∧ cfgLevel ≠ "error").
Proof.
  intros Hl Hlvl. split.
  - unfold Logging.Debug, Logging.log. by rewrite Hl, Hlvl.
  - unfold Client.parseLogLevel, Server.parseLogLevel, DEBUG, INFO, WARN,
      ERROR.
    repeat case_bool_decide; subst; split; try done;
      try (by intros (? & ? & ?)).
Qed.

(** X16. [NewLogger] allocates a logger and a formatter of its own: the
    loggers, formatters and files that existed are untouched, the new
    logger writes to standard output at the level asked for, its formatter
    is newly allocated with no layout set, and a log call through it with
    a usable context does not panic. *)
Theorem NewLogger_fresh w service env lvl :
  ∃ L,
    loggers (NewLogger w service env lvl).1 !! (NewLogger w service env lvl).2
    = Some L
    ∧ loggers w !! (NewLogger w service env lvl).2 = None
    ∧ level L = lvl ∧ serviceName L = service ∧ environment L = env
    ∧ output L = Stdout
    ∧ formatters w !! formatter L = None
    ∧ formatters (NewLogger w service env lvl).1 !! formatter L
      = Some {| TimestampFormat := ""; PrettyPrint := false |}
    ∧ (∀ l0, l0 ≠ (NewLogger w service env lvl).2 →
         loggers (NewLogger w service env lvl).1 !! l0 = loggers w !! l0)
    ∧ (∀ a, a ≠ formatter L →
         formatters (NewLogger w service env lvl).1 !! a = formatters w !! a)
    ∧ files (NewLogger w service env lvl).1 = files w
    ∧ (∀ now ctx lvl' msg fields,
         ¬ not_a_string ctx "trace_id" → ¬ not_a_string ctx "span_id" →
         Logging.log Marshal MarshalIndent FormatTime now
           (NewLogger w service env lvl).1 (NewLogger w service env lvl).2
           ctx lvl' msg fields ≠ Panicked).
Proof.
  unfold NewLogger. simpl.
  set (fa := fresh (dom (formatters w))).
  set (la := fresh (dom (loggers w))).
  assert (Hfa : formatters w !! fa = None)
    by (apply not_elem_of_dom, is_fresh).
  assert (Hla : loggers w !! la = None)
    by (apply not_elem_of_dom, is_fresh).
  eexists. split; [apply lookup_insert_eq|]. simpl.
  split_and!; try done.
  - apply lookup_insert_eq.
  - intros l0 Hne. by rewrite lookup_insert_ne.
  - intros a Hne. by rewrite lookup_insert_ne.
  - intros now ctx lvl' msg fields Ht Hs Hpanic.
    eapply log_Panicked in Hpanic; [|simpl; apply lookup_insert_eq].
    simpl in Hpanic. destruct Hpanic as [_ [?|[?|Hnone]]]; try done.
    by rewrite lookup_insert_eq in Hnone.
Qed.

End LoggerMore.

Lemma log_panics_iff_witness :
  Logging.log message_only message_only_indent no_clock 0 server_world.1
    server_world.2 numeric_trace_ctx Logging.WARN "listening" None
  = Logging.Panicked.
Proof.
  apply (log_panics_iff message_only message_only_indent no_clock 0
           server_world.1 server_world.2
           {| Logging.level := Logging.INFO;
              Logging.serviceName := "gotunnel-server";
              Logging.environment := "production";
              Logging.formatter :=
                fresh (dom (∅ : gmap Logging.loc Logging.JSONFormatter));
              Logging.output := Logging.Stdout |}); [reflexivity|].
  split; [by vm_compute|]. left. by exists 7.
Defined.

Lemma server_world_logger :
  Logging.loggers server_world.1 !! server_world.2
  = Some {| Logging.level := Logging.INFO;
            Logging.serviceName := "gotunnel-server";
            Logging.environment := "production";
            Logging.formatter :=
              fresh (dom (∅ : gmap Logging.loc Logging.JSONFormatter));
            Logging.output := Logging.Stdout |}.
Proof. reflexivity. Qed.

Lemma Background_strings key : ¬ not_a_string Background key.
Proof. by intros [z Hz]. Qed.

Lemma log_appends_only_witness :
  ∃ w', Logging.log message_only message_only_indent no_clock 0
          server_world.1 server_world.2 Background Logging.WARN "listening"
          None = Logging.Done w'
    ∧ Logging.loggers w' = Logging.loggers server_world.1.
Proof.
  assert (Hlog : ∃ w', Logging.log message_only message_only_indent no_clock
                         0 server_world.1 server_world.2 Background
                         Logging.WARN "listening" None = Logging.Done w').
  { eexists. vm_compute. reflexivity. }
  destruct Hlog as [w' Hlog]. exists w'. split; [exact Hlog|].
  exact (proj1 (log_appends_only message_only message_only_indent no_clock
                  0 _ _ _ _ _ _ _ _ server_world_logger Hlog)).
Defined.

Lemma configured_logger_keeps_errors_witness :
  ∃ tid sid w',
    Logging.Error message_only message_only_indent no_clock 0 server_world.1
      server_world.2 Background "listen failed" None = Logging.Done w'
    ∧ ∀ bytes,
        (Logging.Format message_only message_only_indent no_clock 0
           {| Logging.TimestampFormat := ""; Logging.PrettyPrint := false |}
           (log_entry
              {| Logging.level := Logging.INFO;
                 Logging.serviceName := "gotunnel-server";
                 Logging.environment := "production";
                 Logging.formatter :=
                   fresh (dom (∅ : gmap Logging.loc Logging.JSONFormatter));
                 Logging.output := Logging.Stdout |}
              Logging.ERROR "listen failed" tid sid None)).2 = Some bytes →
        written w' Logging.Stdout
        = written server_world.1 Logging.Stdout ++ [bytes; Logging.newline].
Proof.
  apply (configured_logger_keeps_errors message_only message_only_indent
           no_clock 0 server_world.1 server_world.2 _
           {| Logging.TimestampFormat := ""; Logging.PrettyPrint := false |}
           "verbose" Background "listen failed" None server_world_logger).
  - reflexivity.
  - reflexivity.
  - apply Background_strings.
  - apply Background_strings.
Defined.

Lemma client_ignores_log_level_witness :
  Logging.Debug message_only message_only_indent no_clock 0 server_world.1
    server_world.2 Background "dialing" None = Logging.Done server_world.1.
Proof.
  apply (client_ignores_log_level message_only message_only_indent no_clock
           0 server_world.1 server_world.2 _ "debug" Background "dialing" None
           server_world_logger).
  reflexivity.
Defined.

(** * The client's shutdown, the TLS configuration, the lock *)

(** X17. The client's [main], once the signal has arrived, calls
    [client.Shutdown] once with a context whose deadline is 30 seconds
    away, logs its error if there is one, and in either case goes on to
    wait for the client goroutine before it logs that it stopped. *)
Theorem client_shutdown_run Shutdown wgWait t0 t1 e1 t2 :
  Shutdown (shutdown_context t0) t0 = Some (t1, e1) →
  wgWait t1 = Some t2 →
  Client.steps Shutdown wgWait 6 (Client.init t0)
  = {| Client.at_pc := Client.Returned;
       Client.clock := t2;
       Client.shutdownCtx := Some (shutdown_context t0);
       Client.trace :=
         [Client.EvLog Logging.INFO "Shutdown signal received" None;
          Client.EvShutdownCall (shutdown_context t0) t0;
          Client.EvShutdownReturn t1 e1]
         ++ client_error_log e1
         ++ [Client.EvWaitReturn t2;
             Client.EvLog Logging.INFO "Client stopped gracefully" None] |}.
Proof.
  intros H1 H2.
  unfold Client.steps, Client.step, Client.init, Client.goto, Client.emit,
    Client.set_ctx, Client.set_clock; simpl.
  fold (shutdown_context t0). rewrite H1; simpl.
  destruct e1 as [m1|]; simpl; rewrite H2; simpl; reflexivity.
Qed.

Lemma client_shutdown_run_witness :
  Client.at_pc (Client.steps failing_client no_wait 6 (Client.init 0))
  = Client.Returned.
Proof.
  rewrite (client_shutdown_run failing_client no_wait 0 (2 * Second)
             (Some "connection reset") (2 * Second));
    reflexivity.
Defined.

Section TLS.
Import Crypto.
Context {Certificate CertPool : Type}.
Context (LoadX509KeyPair : string → string → Certificate + string).
Context (ReadFile : string → string + string).
Context (NewCertPool : CertPool).
Context (AppendCertsFromPEM : CertPool → string → CertPool * bool).

(** X18. [LoadMTLSConfig] succeeds exactly when the key pair loads, the
    CA file can be read and a certificate is found in it; otherwise its
    error is that of the first of these steps that failed, with the
    matching prefix, whether the configuration is for a server or not. *)
Theorem LoadMTLSConfig_first_failure certFile keyFile caFile isServer :
  ((∃ cfg, LoadMTLSConfig Certificate CertPool LoadX509KeyPair ReadFile
             NewCertPool AppendCertsFromPEM certFile keyFile caFile isServer
           = inl cfg)
   ↔ ∃ cert pem, LoadX509KeyPair certFile keyFile = inl cert
       ∧ ReadFile caFile = inl pem
       ∧ (AppendCertsFromPEM NewCertPool pem).2 = true)
  ∧ (∀ e, LoadX509KeyPair certFile keyFile = inr e →
       LoadMTLSConfig Certificate CertPool LoadX509KeyPair ReadFile
         NewCertPool AppendCertsFromPEM certFile keyFile caFile isServer
       = inr ("failed to load certificate: " +:+ e))
  ∧ (∀ cert e, LoadX509KeyPair certFile keyFile = inl cert →
       ReadFile caFile = inr e →
       LoadMTLSConfig Certificate CertPool LoadX509KeyPair ReadFile
         NewCertPool AppendCertsFromPEM certFile keyFile caFile isServer
       = inr ("failed to load CA certificate: " +:+ e))
  ∧ (∀ cert pem, LoadX509KeyPair certFile keyFile = inl cert →
       ReadFile caFile = inl pem →
       (AppendCertsFromPEM NewCertPool pem).2 = false →
       LoadMTLSConfig Certificate CertPool LoadX509KeyPair ReadFile
         NewCertPool AppendCertsFromPEM certFile keyFile caFile isServer
       = inr "failed to parse CA certificate")
  ∧ (∀ e, LoadMTLSConfig Certificate CertPool LoadX509KeyPair ReadFile
            NewCertPool AppendCertsFromPEM certFile keyFile caFile isServer
          = inr e →
          LoadMTLSConfig Certificate CertPool LoadX509KeyPair ReadFile
            NewCertPool AppendCertsFromPEM certFile keyFile caFile
            (negb isServer)
          = inr e).
Proof.
  unfold LoadMTLSConfig.
  destruct (LoadX509KeyPair certFile keyFile) as [cert|e1].
  2: { split_and!; try done.
       - split; [by intros [? ?]|by intros (? & ? & ? & _)].
       - by intros ? [= <-]. }
  destruct (ReadFile caFile) as [pem|e2].
  2: { split_and!; try done.
       - split; [by intros [? ?]|by intros (? & ? & _ & ? & _)].
       - by intros ? ? _ [= <-]. }
  destruct (AppendCertsFromPEM NewCertPool pem) as [pool [|]] eqn:Happ; simpl.
  - split_and!; try done.
    + split; [intros _; exists cert, pem; by rewrite Happ|].
      intros _. destruct isServer; eauto.
    + intros cert' pem' _ [= <-]. by rewrite Happ.
    + by destruct isServer.
  - split_and!; try done.
    split; [by intros [? ?]|]. intros (? & pem' & _ & [= <-] & Hok).
    by rewrite Happ in Hok.
Qed.

(** X19. Every configuration [LoadMTLSConfig] returns accepts nothing
    below TLS 1.3, presents the one loaded certificate and trusts the pool
    read from the CA file; for a server it also requires and verifies a
    client certificate against that same pool, for a client it asks for
    none. *)
Theorem LoadMTLSConfig_config certFile keyFile caFile isServer cfg :
  LoadMTLSConfig Certificate CertPool LoadX509KeyPair ReadFile NewCertPool
    AppendCertsFromPEM certFile keyFile caFile isServer = inl cfg →
  MinVersion _ _ cfg = VersionTLS13
  ∧ (∃ cert pem, LoadX509KeyPair certFile keyFile = inl cert
       ∧ ReadFile caFile = inl pem
       ∧ Certificates _ _ cfg = [cert]
       ∧ RootCAs _ _ cfg = Some (AppendCertsFromPEM NewCertPool pem).1)
  ∧ (isServer = true →
     ClientCAs _ _ cfg = RootCAs _ _ cfg
     ∧ ClientAuth _ _ cfg = RequireAndVerifyClientCert)
  ∧ (isServer = false →
     ClientCAs _ _ cfg = None ∧ ClientAuth _ _ cfg = NoClientCert).
Proof.
  unfold LoadMTLSConfig.
  destruct (LoadX509KeyPair certFile keyFile) as [cert|e1]; [|done].
  destruct (ReadFile caFile) as [pem|e2]; [|done].
  destruct (AppendCertsFromPEM NewCertPool pem) as [pool [|]] eqn:Happ;
    simpl; [|done].
  destruct isServer; intros [= <-]; simpl; split_and!; try done;
    exists cert, pem; by rewrite Happ.
Qed.

End TLS.

Lemma LoadMTLSConfig_config_witness :
  ∃ cfg,
    Crypto.LoadMTLSConfig string (list string) sample_key_pair sample_read []
      sample_append "server.crt" "server.key" "ca.crt" true = inl cfg
    ∧ Crypto.MinVersion _ _ cfg = Crypto.VersionTLS13
    ∧ Crypto.ClientAuth _ _ cfg = Crypto.RequireAndVerifyClientCert.
Proof.
  assert (Hcfg : ∃ cfg,
    Crypto.LoadMTLSConfig string (list string) sample_key_pair sample_read []
      sample_append "server.crt" "server.key" "ca.crt" true = inl cfg).
  { eexists. reflexivity. }
  destruct Hcfg as [cfg Hcfg]. exists cfg. split; [exact Hcfg|].
  destruct (LoadMTLSConfig_config sample_key_pair sample_read []
              sample_append _ _ _ _ _ Hcfg) as (Hmin & _ & Hserver & _).
  split; [exact Hmin|]. by destruct (Hserver eq_refl).
Defined.

Section LockMore.
Import Locking.

Lemma holders_two f pool i j ti tj :
  i ≠ j → pool !! i = Some ti → pool !! j = Some tj →
  f ti = true → f tj = true → (2 ≤ holders f pool)%nat.
Proof.
  revert i j. induction pool as [|x pool IH]; intros [|i] [|j] Hne Hi Hj Hti Htj;
    simpl in *; try done.
  - injection Hi as ->. rewrite Hti.
    pose proof (holders_pos f pool j tj Hj Htj). lia.
  - injection Hj as ->. rewrite Htj.
    pose proof (holders_pos f pool i ti Hi Hti). lia.
  - assert (i ≠ j) by congruence.
    pose proof (IH i j ltac:(done) Hi Hj Hti Htj). lia.
Qed.

(** X20. The lock is exclusive for writers: in every interleaving, while
    one goroutine is between [Lock] and [Unlock] of a setter, no other
    goroutine holds the lock, for writing or for reading. *)
Theorem lock_mutual_exclusion h programs sh pool i j ti tj :
  rtc cstep (initial h programs) (sh, pool) →
  pool !! i = Some ti → pool !! j = Some tj → i ≠ j →
  writing ti = true →
  writing tj = false ∧ reading tj = false
  ∧ writer sh = true ∧ readers sh = 0%nat.
Proof.
  intros Hrun Hi Hj Hne Hw.
  destruct (lock_inv_reachable _ _ _ Hrun) as (Hr & Hwc & Hex & _).
  simpl in *.
  pose proof (holders_pos writing pool i ti Hi Hw) as Hpos.
  assert (Hwriter : writer sh = true) by (destruct (writer sh); [done|lia]).
  rewrite Hwriter in Hwc. specialize (Hex Hwriter).
  split_and!; try done.
  - destruct (writing tj) eqn:Hwj; [|done].
    pose proof (holders_two writing pool i j ti tj Hne Hi Hj Hw Hwj). lia.
  - rewrite Hex in Hr. symmetry in Hr. apply holders_zero in Hr.
    by eapply Forall_lookup_1 in Hr.
Qed.

(** X21. A checker that never answers freezes the registry: once a
    [Check] is in its range loop with only unanswering checkers left to
    visit, it keeps the read lock for ever, and in everything that can
    happen afterwards no [SetReady], [SetShuttingDown] or
    [RegisterChecker] takes effect. *)
Theorem unanswered_check_freezes_registry h programs sh pool i t now ctx
    snap visited st name c cfg' :
  rtc cstep (initial h programs) (sh, pool) →
  pool !! i = Some t →
  current t = Some (AtRange now ctx snap visited st) →
  checkers (data sh) !! name = Some c → name ∉ visited.*1 →
  (∀ name' c', checkers (data sh) !! name' = Some c' → name' ∉ visited.*1 →
     CheckerCheck c' ctx = NeverReturns) →
  rtc cstep (sh, pool) cfg' →
  data cfg'.1 = data sh ∧ cfg'.2 !! i = Some t ∧ writer cfg'.1 = false.
Proof.
  intros Hrun Hi Hcur Hname Hunvisited Hstuck Hafter.
  assert (Hreading : reading t = true).
  { unfold reading, aggregating. by rewrite Hcur. }
  assert (Hgoal : lock_inv cfg' ∧ data cfg'.1 = data sh ∧ cfg'.2 !! i = Some t).
  { revert cfg' Hafter. apply rtc_ind_r.
    - split; [by eapply lock_inv_reachable|done].
    - intros cfg1 cfg2 _ Hstep (Hinv & Hdata & Hti).
      split; [by eapply lock_inv_step|].
      destruct Hinv as (Hr & Hwc & Hex & _).
      destruct Hstep as [sh1 pool1 k tk sh2 t' Hk Htstep]. simpl in *.
      destruct (decide (k = i)) as [->|Hki].
      + (* the stuck goroutine cannot move *)
        rewrite Hti in Hk. injection Hk as <-.
        destruct t as [cur td dn]. simpl in Hcur. subst cur.
        inversion Htstep; subst.
        * match goal with
          | Hc : checkers _ !! ?n = Some ?c0, Hb : loop_body _ _ _ _ = Some _
            |- _ =>
              rewrite Hdata in Hc;
              rewrite (loop_body_None _ _ _ _ (Hstuck _ _ Hc ltac:(done)))
                in Hb; done
          end.
        * match goal with
          | Hall : ∀ n, n ∈ dom _ → n ∈ _ |- _ =>
              destruct Hunvisited; apply Hall; rewrite Hdata;
              apply elem_of_dom; eauto
          end.
      + rewrite list_lookup_insert_ne by done. split; [|done].
        rewrite <- Hdata.
        inversion Htstep; subst; simpl; try done.
        (* an assignment would need the write lock *)
        pose proof (holders_pos writing pool1 k _ Hk eq_refl) as Hpos.
        pose proof (holders_pos reading pool1 i t Hti Hreading) as Hposr.
        destruct (writer sh1); [|lia].
        specialize (Hex eq_refl). lia. }
  destruct Hgoal as ((Hr & _ & Hex & _) & Hdata & Hti).
  split_and!; try done.
  pose proof (holders_pos reading cfg'.2 i t Hti Hreading) as Hposr.
  destruct (writer cfg'.1); [|done]. specialize (Hex eq_refl). lia.
Qed.

End LockMore.

Lemma mid_write_reachable :
  rtc Locking.cstep (Locking.initial ready_registry two_goroutines) mid_write.
Proof.
  unfold Locking.initial, two_goroutines, mid_write. simpl.
  eapply rtc_l.
  { eapply cstep_at with (i := 1%nat); [reflexivity|constructor|reflexivity]. }
  eapply rtc_l.
  { eapply cstep_at with (i := 1%nat);
      [reflexivity|by constructor|reflexivity]. }
  simpl. reflexivity.
Qed.

Lemma lock_mutual_exclusion_witness :
  Locking.writer mid_write.1 = true ∧ Locking.readers mid_write.1 = 0%nat.
Proof.
  destruct (lock_mutual_exclusion ready_registry two_goroutines
              mid_write.1 mid_write.2 1%nat 0%nat _ _
              mid_write_reachable eq_refl eq_refl)
    as (_ & _ & Hw & Hr); [done|reflexivity|].
  by split.
Defined.

Lemma stuck_aggregation_reachable :
  rtc Locking.cstep
      (Locking.initial stuck_registry
         [[Locking.CallCheck "2024-05-01T10:00:00Z" Background];
          [Locking.CallSetShuttingDown true]])
      stuck_aggregation.
Proof.
  unfold Locking.initial, stuck_aggregation, stuck_thread. simpl.
  eapply rtc_l.
  { eapply cstep_at with (i := 0%nat); [reflexivity|constructor|reflexivity]. }
  eapply rtc_l.
  { eapply cstep_at with (i := 0%nat);
      [reflexivity|by constructor|reflexivity]. }
  eapply rtc_l.
  { eapply cstep_at with (i := 0%nat); [reflexivity|constructor|reflexivity]. }
  eapply rtc_l.
  { eapply cstep_at with (i := 0%nat); [reflexivity|constructor|reflexivity]. }
  simpl. reflexivity.
Qed.

Lemma unanswered_check_freezes_registry_witness :
  Locking.data stuck_aggregation.1 = stuck_registry
  ∧ Locking.writer stuck_aggregation.1 = false.
Proof.
  destruct (unanswered_check_freezes_registry stuck_registry _
              stuck_aggregation.1 stuck_aggregation.2 0%nat stuck_thread
              _ _ _ _ _ "database" (stuck_checker "database")
              stuck_aggregation
              stuck_aggregation_reachable eq_refl eq_refl)
    as (Hdata & _ & Hw).
  - reflexivity.
  - apply not_elem_of_nil.
  - intros name' c' Hl _. simpl in Hl.
    apply lookup_insert_Some in Hl as [[_ <-]|[_ Hl]]; [done|].
    by rewrite lookup_empty in Hl.
  - reflexivity.
  - by split.
Defined.
